(** * The chat component of react-llama-3.2-reasoning: reducer, progress
      tracker and size formatting

    A shallow embedding of [src/lib/main.tsx], [src/lib/Progress.tsx] and
    the chat view.
    The component keeps its state in React hooks; here one record holds the
    hook values, every [setX] call is a function on that record, and the
    [useEffect] whose dependencies are [messages] and [isRunning] is run
    after a handler whenever one of the two changed. *)

From stdpp Require Import base decidable option list strings pretty.
From Stdlib Require Import NArith ZArith Lia Ascii.
From Stdlib Require Import PrimFloat FloatOps SpecFloat.

Open Scope string_scope.
Open Scope list_scope.

(** ** Data model (main.tsx, lines 6-22) *)

(** A JavaScript number as far as the reducer inspects one: [NaN], or a
    finite value.  The reducer stores the numbers of an event and tests
    [tps] for truthiness; it never computes with them, so the finite
    values are kept as naturals. *)
Inductive number : Type :=
  | NaN
  | Num (n : N).

Inductive Role : Type := user | assistant.

Record ChatMessage : Type := mkChatMessage {
  role : Role;
  content : string;
  answerIndex : option nat;
}.

#[global] Instance number_eq_dec : EqDecision number.
Proof. solve_decision. Defined.
#[global] Instance Role_eq_dec : EqDecision Role.
Proof. solve_decision. Defined.
#[global] Instance ChatMessage_eq_dec : EqDecision ChatMessage.
Proof. solve_decision. Defined.

(** The payload of a worker event.  Every field is optional, as in the
    interface; [None] is JavaScript's [undefined]. *)
Module Message.
Record MessageData : Type := mk {
  status : option string;
  data : option string;
  file : option string;
  output : option string;
  tps : option number;
  numTokens : option number;
  state : option string;
  progress : option number;
  total : option number;
}.

(** [{...item, progress, total}] *)
Definition withProgress (item : MessageData) (p t : option number) : MessageData :=
  mk (status item) (data item) (file item) (output item) (tps item)
     (numTokens item) (state item) p t.

(** An event that carries nothing but its status. *)
Definition bare (st : string) : MessageData :=
  mk (Some st) None None None None None None None None.
End Message.
Abbreviation MessageData := Message.MessageData.

#[global] Instance MessageData_eq_dec : EqDecision MessageData.
Proof. solve_decision. Defined.

(** What the component posts to the worker (spec section 6). *)
Inductive Command : Type :=
  | check
  | load
  | generate (data : list ChatMessage)
  | interrupt
  | reset.

#[global] Instance Command_eq_dec : EqDecision Command.
Proof. solve_decision. Defined.

(** The hook values of [LlamaReasoningReactComponent].  [worker] is
    [worker.current] together with everything posted to it so far ([None]
    while the ref is still null).  [messagesRef] stands for the identity of
    the array held in [messages]: each [setMessages] call of the component
    installs a freshly built array, and React compares effect dependencies
    by identity. *)
Record State : Type := mkState {
  worker : option (list Command);
  status : option string;
  error : option string;
  loadingMessage : string;
  progressItems : list MessageData;
  isRunning : bool;
  input : string;
  messages : list ChatMessage;
  messagesRef : nat;
  tps : option number;
  numTokens : option number;
}.

#[global] Instance State_eq_dec : EqDecision State.
Proof. solve_decision. Defined.

(** The state once the mount effect has created the worker and posted the
    feature check (lines 84-93). *)
Definition mounted : State :=
  mkState (Some [check]) None None "" [] false "" [] 0 None None.

(** ** State setters *)

Definition setStatus (v : option string) (s : State) : State :=
  mkState (worker s) v (error s) (loadingMessage s) (progressItems s)
          (isRunning s) (input s) (messages s) (messagesRef s) (tps s) (numTokens s).

Definition setError (v : option string) (s : State) : State :=
  mkState (worker s) (status s) v (loadingMessage s) (progressItems s)
          (isRunning s) (input s) (messages s) (messagesRef s) (tps s) (numTokens s).

Definition setLoadingMessage (v : string) (s : State) : State :=
  mkState (worker s) (status s) (error s) v (progressItems s)
          (isRunning s) (input s) (messages s) (messagesRef s) (tps s) (numTokens s).

Definition setProgressItems (f : list MessageData → list MessageData) (s : State) : State :=
  mkState (worker s) (status s) (error s) (loadingMessage s) (f (progressItems s))
          (isRunning s) (input s) (messages s) (messagesRef s) (tps s) (numTokens s).

Definition setIsRunning (v : bool) (s : State) : State :=
  mkState (worker s) (status s) (error s) (loadingMessage s) (progressItems s)
          v (input s) (messages s) (messagesRef s) (tps s) (numTokens s).

Definition setInput (v : string) (s : State) : State :=
  mkState (worker s) (status s) (error s) (loadingMessage s) (progressItems s)
          (isRunning s) v (messages s) (messagesRef s) (tps s) (numTokens s).

(** [setMessages] with an updater (or a fresh literal): the result is a new
    array, hence a new identity. *)
Definition setMessages (f : list ChatMessage → list ChatMessage) (s : State) : State :=
  mkState (worker s) (status s) (error s) (loadingMessage s) (progressItems s)
          (isRunning s) (input s) (f (messages s)) (S (messagesRef s)) (tps s) (numTokens s).

Definition setTps (v : option number) (s : State) : State :=
  mkState (worker s) (status s) (error s) (loadingMessage s) (progressItems s)
          (isRunning s) (input s) (messages s) (messagesRef s) v (numTokens s).

Definition setNumTokens (v : option number) (s : State) : State :=
  mkState (worker s) (status s) (error s) (loadingMessage s) (progressItems s)
          (isRunning s) (input s) (messages s) (messagesRef s) (tps s) v.

(** [if (worker.current) worker.current.postMessage(c)] *)
Definition postMessage (c : Command) (s : State) : State :=
  match worker s with
  | Some sent =>
      mkState (Some (sent ++ [c])) (status s) (error s) (loadingMessage s)
              (progressItems s) (isRunning s) (input s) (messages s)
              (messagesRef s) (tps s) (numTokens s)
  | None => s
  end.

(** ** The transcript updaters *)

(** [onEnter]'s updater: [[...prev, { role: "user", content: message }]] *)
Definition appendUser (message : string) (prev : list ChatMessage) : list ChatMessage :=
  prev ++ [mkChatMessage user message None].

(** The updater of case "start": [[...prev, { role: "assistant", content: "" }]] *)
Definition appendAssistant (prev : list ChatMessage) : list ChatMessage :=
  prev ++ [mkChatMessage assistant "" None].

(** The turn written back by case "update" (lines 156-163). *)
Definition updatedTurn (output state : option string) (last : ChatMessage) : ChatMessage :=
  let newContent := content last +:+ default "" output in
  let updated := mkChatMessage (role last) newContent (answerIndex last) in
  if decide (answerIndex updated = None ∧ state = Some "answering")
  then mkChatMessage (role updated) (content updated) (Some (String.length (content last)))
  else updated.

(** The updater of case "update" (lines 152-167). *)
Definition appendToken (output state : option string) (prev : list ChatMessage)
  : list ChatMessage :=
  let cloned := prev in
  match last cloned with
  | Some l => <[length cloned - 1 := updatedTurn output state l]> cloned
  | None => cloned
  end.

(** ** The worker message handler (lines 96-179) *)

(** The [case] labels of the [switch]; [NoCase] is falling through it. *)
Inductive Case : Type :=
  | CaseLoading | CaseInitiate | CaseProgress | CaseDone | CaseReady
  | CaseStart | CaseUpdate | CaseComplete | CaseError | NoCase.

#[global] Instance Case_eq_dec : EqDecision Case.
Proof. solve_decision. Defined.

Definition switch (messageStatus : option string) : Case :=
  match messageStatus with
  | None => NoCase
  | Some st =>
      if String.eqb st "loading" then CaseLoading
      else if String.eqb st "initiate" then CaseInitiate
      else if String.eqb st "progress" then CaseProgress
      else if String.eqb st "done" then CaseDone
      else if String.eqb st "ready" then CaseReady
      else if String.eqb st "start" then CaseStart
      else if String.eqb st "update" then CaseUpdate
      else if String.eqb st "complete" then CaseComplete
      else if String.eqb st "error" then CaseError
      else NoCase
  end.

Definition onMessageReceived (e : MessageData) (s : State) : State :=
  match switch (Message.status e) with
  | CaseLoading =>
      let s := setStatus (Some "loading") s in
      match Message.data e with
      | Some d => setLoadingMessage d s
      | None => s
      end
  | CaseInitiate => setProgressItems (λ prev, prev ++ [e]) s
  | CaseProgress =>
      setProgressItems
        (λ prev,
           (λ item,
              if decide (Message.file item = Message.file e)
              then Message.withProgress item (Message.progress e) (Message.total e)
              else item) <$> prev) s
  | CaseDone =>
      setProgressItems
        (λ prev, filter (λ item, Message.file item ≠ Message.file e) prev) s
  | CaseReady => setStatus (Some "ready") s
  | CaseStart => setMessages appendAssistant s
  | CaseUpdate =>
      let s := setTps (Message.tps e) s in
      let s := setNumTokens (Message.numTokens e) s in
      setMessages (appendToken (Message.output e) (Message.state e)) s
  | CaseComplete => setIsRunning false s
  | CaseError =>
      match Message.data e with
      | Some d => setError (Some d) s
      | None => s
      end
  | NoCase => s
  end.

(** ** The user's handlers *)

Definition EXAMPLES : list string :=
  [ "Solve the equation x^2 - 3x + 2 = 0";
    "Lily is three times older than her son. In 15 years, she will be twice as old as him. How old is she now?";
    "Write python code to compute the nth fibonacci number." ].

(** Lines 55-62. *)
Definition onEnter (message : string) (s : State) : State :=
  let s := setMessages (appendUser message) s in
  let s := setTps None s in
  let s := setIsRunning true s in
  setInput "" s.

(** Lines 64-68. *)
Definition onInterrupt (s : State) : State := postMessage interrupt s.

(** The textarea's [onKeyDown] (lines 379-389). *)
Definition onKeyDown (key : string) (shiftKey : bool) (s : State) : State :=
  if bool_decide (0 < String.length (input s)) && negb (isRunning s)
     && String.eqb key "Enter" && negb shiftKey
  then onEnter (input s) s
  else s.

(** The textarea's [onInput] (line 390). *)
Definition onInput (value : string) (s : State) : State := setInput value s.

(** A click on the element right of the textarea (lines 392-408): the stop
    icon while running, the send arrow when there is input, and an arrow
    without a handler otherwise. *)
Definition onSendClick (s : State) : State :=
  if isRunning s then onInterrupt s
  else if bool_decide (0 < String.length (input s)) then onEnter (input s) s
  else s.

(** The examples are rendered in the ready view and only while the
    transcript is empty (lines 311, 317-329). *)
Definition examplesShown (s : State) : bool :=
  bool_decide (status s = Some "ready")
  && bool_decide (length (messages s) = 0).

(** A click on the [i]-th example (line 323); without the examples on
    screen there is nothing to click. *)
Definition onExampleClick (i : nat) (s : State) : State :=
  if examplesShown s
  then match EXAMPLES !! i with
       | Some msg => onEnter msg s
       | None => s
       end
  else s.

(** JavaScript truthiness of a metric: [null], NaN and 0 are falsy. *)
Definition truthy (x : option number) : bool :=
  match x with
  | Some (Num n) => negb (N.eqb n 0)
  | _ => false
  end.

(** The guard of the metrics line (line 331):
    [tps && messages.length > 0]. *)
Definition metricsShown (s : State) : bool :=
  truthy (tps s) && bool_decide (0 < length (messages s)).

(** The Reset link is rendered in the ready view, inside the metrics
    line, and only while no generation is running (lines 311, 331,
    348-362). *)
Definition resetShown (s : State) : bool :=
  bool_decide (status s = Some "ready") && metricsShown s && negb (isRunning s).

(** The Reset span's [onClick] (lines 353-358); without the link on
    screen there is nothing to click. *)
Definition onResetClick (s : State) : State :=
  if resetShown s
  then match worker s with
       | Some _ => setMessages (λ _, []) (postMessage reset s)
       | None => s
       end
  else s.

(** The Load button (lines 280-291); a disabled button delivers no click. *)
Definition onLoadClick (s : State) : State :=
  if bool_decide (status s ≠ None ∨ error s ≠ None) then s
  else match worker s with
       | Some _ => setStatus (Some "loading") (postMessage load s)
       | None => s
       end.

(** ** The generate effect (lines 199-211) and the event loop *)

Definition generateEffect (s : State) : State :=
  if decide (length (filter (λ x, role x = user) (messages s)) = 0) then s
  else if decide (role <$> last (messages s) = Some assistant) then s
  else postMessage (generate (messages s)) (setTps None s).

Inductive Action : Type :=
  | message (e : MessageData)
  | keyDown (key : string) (shiftKey : bool)
  | inputText (value : string)
  | clickSend
  | clickExample (i : nat)
  | clickReset
  | clickLoad.

Definition handle (a : Action) (s : State) : State :=
  match a with
  | message e => onMessageReceived e s
  | keyDown key shiftKey => onKeyDown key shiftKey s
  | inputText value => onInput value s
  | clickSend => onSendClick s
  | clickExample i => onExampleClick i s
  | clickReset => onResetClick s
  | clickLoad => onLoadClick s
  end.

(** The dependency array [[messages, isRunning]]. *)
Definition depsChanged (old new : State) : bool :=
  negb (bool_decide (messagesRef old = messagesRef new))
  || negb (bool_decide (isRunning old = isRunning new)).

(** One turn of the event loop: the handler, then the effect if one of its
    dependencies changed.  The effect itself only sets [tps], which is not
    a dependency, so it does not run again. *)
Definition dispatch (a : Action) (s : State) : State :=
  let s' := handle a s in
  if depsChanged s s' then generateEffect s' else s'.

Definition run (acts : list Action) (s : State) : State :=
  foldl (λ s a, dispatch a s) s acts.

(** Worker events only. *)
Definition receive (evs : list MessageData) (s : State) : State :=
  run (message <$> evs) s.

(** The [generate] commands among the posted ones. *)
Definition generates (s : State) : list (list ChatMessage) :=
  match worker s with
  | Some sent => omap (λ c, match c with generate d => Some d | _ => None end) sent
  | None => []
  end.

(** Events used in the statements below. *)
Definition evStart : MessageData := Message.bare "start".
Definition evComplete : MessageData := Message.bare "complete".
Definition evReady : MessageData := Message.bare "ready".
Definition evLoading (msg : string) : MessageData :=
  Message.mk (Some "loading") (Some msg) None None None None None None None.
Definition evUpdate (out st : string) : MessageData :=
  Message.mk (Some "update") None None (Some out) None None (Some st) None None.
Definition evInitiate (f : string) : MessageData :=
  Message.mk (Some "initiate") None (Some f) None None None None None None.
Definition evProgress (f : string) (p t : number) : MessageData :=
  Message.mk (Some "progress") None (Some f) None None None None (Some p) (Some t).
Definition evDone (f : string) : MessageData :=
  Message.mk (Some "done") None (Some f) None None None None None None.

(** ** Size formatting (Progress.tsx), on IEEE doubles

    [formatBytes] computes with JavaScript numbers, which are the
    kernel's binary64 floats: [/] and the comparisons are those of IEEE
    754.  [Math.log] belongs to the platform and is a parameter. *)

Definition units : list string := ["B"; "kB"; "MB"; "GB"; "TB"].

(** [Math.floor] of a double, as an integer; NaN and the infinities have
    none. *)
Definition Math_floor (x : float) : option Z :=
  match Prim2SF x with
  | S754_zero _ => Some 0%Z
  | S754_finite sign m e =>
      if (0 <=? e)%Z
      then Some (if sign then - (Zpos m * 2 ^ e) else Zpos m * 2 ^ e)%Z
      else Some (if sign
                 then - ((Zpos m + 2 ^ (- e) - 1) / 2 ^ (- e))
                 else Zpos m / 2 ^ (- e))%Z
  | _ => None
  end.

(** [Math.pow(1024, i)] for an index [i >= 0]: every product is a power
    of two, hence exact, until it overflows to infinity. *)
Fixpoint pow1024 (i : nat) : float :=
  match i with
  | O => 1%float
  | S i => (1024 * pow1024 i)%float
  end.

(** [(size / scale).toFixed(2)], as a count of hundredths: the integer [n]
    for which [n / 100] is nearest to the quotient, the larger one on a
    tie. *)
Definition toFixed2 (size scale : N) : N :=
  ((200 * size + scale) / (2 * scale))%N.

(** [x.toFixed(2)] for a double [x] that is finite and not negative;
    [toFixed] works on the exact value of [x], which is [m * 2 ^ e]. *)
Definition toFixedHundredths (x : float) : option N :=
  match Prim2SF x with
  | S754_zero _ => Some 0%N
  | S754_finite false m e =>
      Some (toFixed2 (Npos m * 2 ^ Z.to_N e) (2 ^ Z.to_N (- e)))
  | _ => None
  end.

(** The unary [+] and the [* 1] turn the digits back into the number
    [h / 100]; concatenating it with a string prints it without trailing
    zeros. *)
Definition showHundredths (h : N) : string :=
  let whole := pretty (h / 100)%N in
  let d1 := (h mod 100 / 10)%N in
  let d2 := (h mod 10)%N in
  if decide (d2 = 0%N)
  then if decide (d1 = 0%N) then whole else whole +:+ "." +:+ pretty d1
  else whole +:+ "." +:+ pretty d1 +:+ pretty d2.

Section FormatBytes.

Variable Math_log : float → float.

(** Lines 1-8, as the text that the template literal of [Progress] makes
    of the result.  When the index has no entry in the unit table the
    second operand of the last [+] is [undefined] and the sum is the
    number NaN, whatever the first operand.  The printed number is
    modelled where the scaled value is finite, not negative and has at
    most fifteen digits; elsewhere the result is left open ([None]). *)
Definition formatBytes (size : float) : option string :=
  let i := if (size =? 0)%float then Some 0%Z
           else Math_floor (Math_log size / Math_log 1024) in
  match i with
  | None => Some "NaN"
  | Some i =>
      match (if (0 <=? i)%Z then units !! Z.to_nat i else None) with
      | None => Some "NaN"
      | Some unit =>
          match toFixedHundredths (size / pow1024 (Z.to_nat i)) with
          | Some h =>
              if bool_decide (h < 10 ^ 15)%N
              then Some (showHundredths h +:+ unit) else None
          | None => None
          end
      end
  end.

(** [isNaN(total!)]: [undefined] converts to NaN. *)
Definition isNaN (total : option float) : bool :=
  match total with
  | Some x => is_nan x
  | None => true
  end.

(** Line 29. *)
Definition sizeSuffix (total : option float) : option string :=
  if isNaN total then Some ""
  else String.append " of " <$> formatBytes (default nan total).

End FormatBytes.

(** ** The transcript as objects on a heap

    The updaters above compute with values.  To speak about object
    identity, the same four updaters are written here over a heap of
    JavaScript objects: a turn object or an array of references.  An
    object's address is its index in the heap and allocation appends.  A
    computation fails only on a dangling or ill-typed reference. *)
Module Refs.

Abbreviation loc := nat.

Inductive object : Type :=
  | Turn (t : ChatMessage)
  | Array (items : list loc).

Abbreviation heap := (list object).

Definition M (A : Type) : Type := heap → option (A * heap).

#[global] Instance M_ret : MRet M := λ A a h, Some (a, h).
#[global] Instance M_bind : MBind M := λ A B k m h,
  match m h with
  | Some (a, h') => k a h'
  | None => None
  end.

Definition alloc (o : object) : M loc := λ h, Some (length h, h ++ [o]).

Definition readTurn (l : loc) : M ChatMessage := λ h,
  match h !! l with
  | Some (Turn t) => Some (t, h)
  | _ => None
  end.

Definition readArray (l : loc) : M (list loc) := λ h,
  match h !! l with
  | Some (Array items) => Some (items, h)
  | _ => None
  end.

Definition write (l : loc) (o : object) : M unit := λ h,
  if decide (l < length h) then Some ((), <[l := o]> h) else None.

(** [[...prev, { role: "user", content: message }]] *)
Definition appendUserRef (message : string) (prev : loc) : M loc :=
  items ← readArray prev;
  turn ← alloc (Turn (mkChatMessage user message None));
  alloc (Array (items ++ [turn])).

(** [[...prev, { role: "assistant", content: "" }]] *)
Definition appendAssistantRef (prev : loc) : M loc :=
  items ← readArray prev;
  turn ← alloc (Turn (mkChatMessage assistant "" None));
  alloc (Array (items ++ [turn])).

(** [setMessages([])] *)
Definition resetRef (prev : loc) : M loc := alloc (Array []).

(** Lines 152-167, statement by statement. *)
Definition appendTokenRef (output state : option string) (prev : loc) : M loc :=
  items ← readArray prev;
  cloned ← alloc (Array items);
  match last items with
  | Some lastRef =>
      l ← readTurn lastRef;
      let newContent := content l +:+ default "" output in
      updated ← alloc (Turn (mkChatMessage (role l) newContent (answerIndex l)));
      u ← readTurn updated;
      _ ← (if decide (answerIndex u = None ∧ state = Some "answering")
           then write updated
                  (Turn (mkChatMessage (role u) (content u)
                                       (Some (String.length (content l)))))
           else mret ());
      elems ← readArray cloned;
      _ ← write cloned (Array (<[length elems - 1 := updated]> elems));
      mret cloned
  | None => mret cloned
  end.

(** The turn an address holds, and the transcript an array address
    stands for. *)
Definition turnAt (h : heap) (l : loc) : option ChatMessage :=
  match h !! l with
  | Some (Turn t) => Some t
  | _ => None
  end.

Definition deref (h : heap) (a : loc) : option (list ChatMessage) :=
  match h !! a with
  | Some (Array items) => mapM (turnAt h) items
  | _ => None
  end.

End Refs.

(** ** Vocabulary of the statements *)

Definition isCase (c : Case) (e : MessageData) : bool :=
  bool_decide (switch (Message.status e) = c).

(** An "update" event sent in the answering phase. *)
Definition isAnswering (e : MessageData) : bool :=
  isCase CaseUpdate e && bool_decide (Message.state e = Some "answering").

(** What one event, and a list of events, add to the content of the last
    turn. *)
Definition fragment (e : MessageData) : string :=
  if isCase CaseUpdate e then default "" (Message.output e) else "".

Definition emitted (evs : list MessageData) : string :=
  foldr (λ e acc, fragment e +:+ acc) "" evs.

(** The file identifiers of the tracked downloads. *)
Definition files (items : list MessageData) : list (option string) :=
  Message.file <$> items.

(** Every "initiate" of the stream names a file that is not tracked at the
    moment it arrives. *)
Fixpoint freshInitiates (evs : list MessageData) (s : State) : bool :=
  match evs with
  | [] => true
  | e :: evs =>
      (if isCase CaseInitiate e
       then bool_decide (Message.file e ∉ files (progressItems s))
       else true)
      && freshInitiates evs (dispatch (message e) s)
  end.

(** The status strings that have a [case] label. *)
Definition caseLabels : list string :=
  ["loading"; "initiate"; "progress"; "done"; "ready"; "start"; "update";
   "complete"; "error"].

(** A worker event with status "loading". *)
Definition isLoadingEvent (a : Action) : bool :=
  match a with
  | message e => isCase CaseLoading e
  | _ => false
  end.

(** The event's status is one of the [case] labels. *)
Definition knownStatus (e : MessageData) : bool :=
  match Message.status e with
  | Some st => bool_decide (st ∈ caseLabels)
  | None => false
  end.

(** An "update" event that also reports the two metrics. *)
Definition evUpdateWith (out st : string) (t n : number) : MessageData :=
  Message.mk (Some "update") None None (Some out) (Some t) (Some n) (Some st)
             None None.

(** The role of the last turn, if there is one. *)
Definition lastRole (ms : list ChatMessage) : option Role := role <$> last ms.

(** The text that an action hands to [onEnter] in a given state, if it
    does so: the Enter key and the send arrow under their guards, and a
    click on an example while the examples are on screen. *)
Definition submits (a : Action) (s : State) : option string :=
  match a with
  | keyDown key shiftKey =>
      if bool_decide (0 < String.length (input s)) && negb (isRunning s)
         && String.eqb key "Enter" && negb shiftKey
      then Some (input s) else None
  | clickSend =>
      if isRunning s then None
      else if bool_decide (0 < String.length (input s)) then Some (input s)
      else None
  | clickExample i => if examplesShown s then EXAMPLES !! i else None
  | _ => None
  end.

(** The ordering the worker keeps (spec section 5): while the last turn
    is the user's, its next transcript event is "start", neither "update"
    nor "complete". *)
Definition inOrder (a : Action) (s : State) : bool :=
  match a with
  | message e =>
      if bool_decide (lastRole (messages s) = Some user)
      then negb (isCase CaseUpdate e) && negb (isCase CaseComplete e)
      else true
  | _ => true
  end.

Fixpoint allInOrder (acts : list Action) (s : State) : bool :=
  match acts with
  | [] => true
  | a :: acts => inOrder a s && allInOrder acts (dispatch a s)
  end.

(** The transcripts right after each submission of a run. *)
Fixpoint submitted (acts : list Action) (s : State) : list (list ChatMessage) :=
  match acts with
  | [] => []
  | a :: acts =>
      match submits a s with
      | Some text => [messages s ++ [mkChatMessage user text None]]
      | None => []
      end ++ submitted acts (dispatch a s)
  end.

(** Every object of [h] is still there, unchanged, in [h']. *)
Definition preserves (h h' : Refs.heap) : Prop :=
  ∀ (l : Refs.loc) (o : Refs.object), h !! l = Some o → h' !! l = Some o.

(** ** The split of an assistant turn (Chat, [AssistantMessage]) *)

(** [content.slice(0, n)] and [content.slice(n)] for an index [n >= 0];
    both clamp at the end of the string. *)
Fixpoint sliceTo (n : nat) (s : string) : string :=
  match n, s with
  | S n, String c s => String c (sliceTo n s)
  | _, _ => ""
  end.

Fixpoint sliceFrom (n : nat) (s : string) : string :=
  match n, s with
  | S n, String c s => sliceFrom n s
  | _, _ => s
  end.

(** [answerIndex ? content.slice(0, answerIndex) : content]; an index that
    is [undefined] or 0 is falsy. *)
Definition thinking (m : ChatMessage) : string :=
  match answerIndex m with
  | Some (S a) => sliceTo (S a) (content m)
  | _ => content m
  end.

(** [answerIndex ? content.slice(answerIndex) : ""] *)
Definition answer (m : ChatMessage) : string :=
  match answerIndex m with
  | Some (S a) => sliceFrom (S a) (content m)
  | _ => ""
  end.

(** [answer.length > 0] *)
Definition doneThinking (m : ChatMessage) : bool :=
  bool_decide (0 < String.length (answer m)).

(** ** Further vocabulary *)

(** The boundary of a turn, when set, lies within its content. *)
Definition boundaryInContent (m : ChatMessage) : Prop :=
  ∀ a, answerIndex m = Some a → (a ≤ String.length (content m))%nat.

(** What an action may post in a state: never "check"; "load" from the
    Load button in the unset phase without an error; "reset" from the
    Reset link; "interrupt" from a click on the stop icon; "generate"
    with the transcript as it is after the action, ending in a user
    turn. *)
Definition allowedPost (a : Action) (s : State) (c : Command) : Prop :=
  match c with
  | check => False
  | load => a = clickLoad ∧ status s = None ∧ error s = None
  | reset => a = clickReset
  | interrupt => a = clickSend ∧ isRunning s = true
  | generate d => d = messages (dispatch a s) ∧ lastRole d = Some user
  end.

(** The number of "load" commands among the posted ones. *)
Definition loads (cs : list Command) : nat :=
  length (filter (λ c, c = load) cs).

(** A tracker event, and one that is not "initiate". *)
Definition isTrackerEvent (e : MessageData) : bool :=
  isCase CaseInitiate e || isCase CaseProgress e || isCase CaseDone e.

#[global] Instance Action_eq_dec : EqDecision Action.
Proof. solve_decision. Defined.

(** ** The text handed to the Markdown parser (Chat, [renderMarkdownToHtml]) *)





(** * Properties *)

(** ** Bookkeeping: what the effect and the setters leave alone *)

Lemma messages_postMessage c s : messages (postMessage c s) = messages s.
Proof. unfold postMessage. by destruct (worker s). Qed.

Lemma messages_generateEffect s : messages (generateEffect s) = messages s.
Proof.
  unfold generateEffect. repeat case_decide; try done.
  by rewrite messages_postMessage.
Qed.

Lemma isRunning_generateEffect s : isRunning (generateEffect s) = isRunning s.
Proof.
  unfold generateEffect, postMessage. repeat case_decide; try done.
  simpl. by destruct (worker s).
Qed.

Lemma messages_dispatch a s : messages (dispatch a s) = messages (handle a s).
Proof.
  unfold dispatch. destruct (depsChanged _ _); [apply messages_generateEffect | done].
Qed.

Lemma messages_onMessageReceived e s :
  messages (onMessageReceived e s) =
  match switch (Message.status e) with
  | CaseStart => appendAssistant (messages s)
  | CaseUpdate => appendToken (Message.output e) (Message.state e) (messages s)
  | _ => messages s
  end.
Proof.
  unfold onMessageReceived.
  destruct (switch _); simpl; try done; by destruct (Message.data e).
Qed.

Lemma receive_cons e evs s :
  receive (e :: evs) s = receive evs (dispatch (message e) s).
Proof. done. Qed.

Lemma receive_app evs1 evs2 s :
  receive (evs1 ++ evs2) s = receive evs2 (receive evs1 s).
Proof. unfold receive, run. by rewrite fmap_app, foldl_app. Qed.

(** ** The update step on the transcript *)

Lemma appendToken_nil output state : appendToken output state [] = [].
Proof. done. Qed.

Lemma appendToken_snoc output state ms t :
  appendToken output state (ms ++ [t]) = ms ++ [updatedTurn output state t].
Proof.
  unfold appendToken. rewrite last_snoc, length_app. simpl.
  replace (length ms + 1 - 1) with (length ms + 0) by lia.
  by rewrite insert_app_r.
Qed.

Lemma role_updatedTurn output state t : role (updatedTurn output state t) = role t.
Proof. unfold updatedTurn. by case_decide. Qed.

Lemma content_updatedTurn output state t :
  content (updatedTurn output state t) = content t +:+ default "" output.
Proof. unfold updatedTurn. by case_decide. Qed.

Lemma answerIndex_updatedTurn output state t :
  answerIndex (updatedTurn output state t) =
  match answerIndex t with
  | Some a => Some a
  | None => if decide (state = Some "answering")
            then Some (String.length (content t)) else None
  end.
Proof.
  unfold updatedTurn. simpl.
  destruct (answerIndex t) as [a|] eqn:Ha; repeat case_decide; simpl; try done;
    intuition congruence.
Qed.

(** C10: an "update" event leaves an empty transcript empty, and on a
    non-empty transcript rewrites the last turn, whatever its role: the
    fragment is appended to its content and [answerIndex] is set when it
    was unset and the phase is "answering".  So an update that arrives
    before any "start" lands on the user's own turn. *)
Theorem update_appends_to_last_turn :
  (∀ (e : MessageData) (s : State),
      switch (Message.status e) = CaseUpdate →
      messages s = [] →
      messages (dispatch (message e) s) = [])
  ∧ (∀ (e : MessageData) (s : State) (ms : list ChatMessage) (t : ChatMessage),
      switch (Message.status e) = CaseUpdate →
      messages s = ms ++ [t] →
      ∃ t', messages (dispatch (message e) s) = ms ++ [t']
            ∧ role t' = role t
            ∧ content t' = content t +:+ default "" (Message.output e)
            ∧ answerIndex t' =
                match answerIndex t with
                | Some a => Some a
                | None => if decide (Message.state e = Some "answering")
                          then Some (String.length (content t)) else None
                end)
  ∧ messages (run [inputText "q"; keyDown "Enter" false;
                   message (evUpdate "x" "answering")] mounted)
    = [mkChatMessage user "qx" (Some 1)].
Proof.
  split; [|split].
  - intros e s He Hs.
    rewrite messages_dispatch. simpl.
    by rewrite messages_onMessageReceived, He, Hs.
  - intros e s ms t He Hs.
    exists (updatedTurn (Message.output e) (Message.state e) t).
    rewrite messages_dispatch. simpl.
    rewrite messages_onMessageReceived, He, Hs, appendToken_snoc.
    by rewrite role_updatedTurn, content_updatedTurn, answerIndex_updatedTurn.
  - reflexivity.
Qed.

Lemma update_appends_to_last_turn_witness :
  ∃ t', messages (dispatch (message (evUpdate " there" "answering"))
                    (setMessages (λ _, [mkChatMessage assistant "Hi" None]) mounted))
        = [] ++ [t']
        ∧ role t' = assistant
        ∧ content t' = "Hi there"
        ∧ answerIndex t' = Some 2.
Proof.
  exact (proj1 (proj2 update_appends_to_last_turn)
           (evUpdate " there" "answering")
           (setMessages (λ _, [mkChatMessage assistant "Hi" None]) mounted)
           [] (mkChatMessage assistant "Hi" None) eq_refl eq_refl).
Defined.

(** ** Strings *)

Lemma string_app_cons (x : Ascii.ascii) (a b : string) :
  String x a +:+ b = String x (a +:+ b).
Proof. reflexivity. Qed.

Lemma string_app_assoc (a b c : string) : (a +:+ b) +:+ c = a +:+ (b +:+ c).
Proof.
  induction a as [|x a IH]; [done|]. by rewrite !string_app_cons, IH.
Qed.

Lemma string_app_nil_r (a : string) : a +:+ "" = a.
Proof. induction a as [|x a IH]; [done|]. by rewrite string_app_cons, IH. Qed.

Lemma string_length_app (a b : string) :
  String.length (a +:+ b) = String.length a + String.length b.
Proof.
  induction a as [|x a IH]; [done|]. rewrite string_app_cons. simpl. by rewrite IH.
Qed.

(** ** The answer boundary *)

Lemma messages_receive_one e s :
  messages (dispatch (message e) s) =
  match switch (Message.status e) with
  | CaseStart => appendAssistant (messages s)
  | CaseUpdate => appendToken (Message.output e) (Message.state e) (messages s)
  | _ => messages s
  end.
Proof. rewrite messages_dispatch. apply messages_onMessageReceived. Qed.

(** An event that is neither "start" nor an answering update keeps the
    last turn last and its boundary unset. *)
Lemma thinking_step e s ms t :
  messages s = ms ++ [t] → answerIndex t = None →
  isCase CaseStart e = false → isAnswering e = false →
  ∃ t', messages (dispatch (message e) s) = ms ++ [t']
        ∧ answerIndex t' = None ∧ role t' = role t
        ∧ content t' = content t +:+ fragment e.
Proof.
  intros Hs Ht Hstart Hans.
  rewrite messages_receive_one, Hs.
  unfold isAnswering, fragment, isCase in *.
  apply bool_decide_eq_false in Hstart.
  destruct (switch (Message.status e)) eqn:Hc; try done;
    try (exists t; by rewrite string_app_nil_r).
  exists (updatedTurn (Message.output e) (Message.state e) t).
  rewrite appendToken_snoc, role_updatedTurn, content_updatedTurn,
    answerIndex_updatedTurn, Ht.
  rewrite bool_decide_eq_true_2 in Hans |- * by done.
  apply bool_decide_eq_false in Hans. by case_decide.
Qed.

Lemma thinking_steps pre : ∀ s ms t,
  messages s = ms ++ [t] → answerIndex t = None →
  forallb (λ x, negb (isCase CaseStart x) && negb (isAnswering x)) pre = true →
  ∃ t', messages (receive pre s) = ms ++ [t']
        ∧ answerIndex t' = None ∧ role t' = role t
        ∧ content t' = content t +:+ emitted pre.
Proof.
  induction pre as [|e pre IH]; intros s ms t Hs Ht Hpre.
  - exists t. by rewrite string_app_nil_r.
  - simpl in Hpre. apply andb_prop in Hpre as [He Hpre].
    apply andb_prop in He as [He1 He2].
    apply negb_true_iff in He1, He2.
    destruct (thinking_step e s ms t Hs Ht He1 He2) as (t1 & Hs1 & Ht1 & Hr1 & Hc1).
    destruct (IH _ ms t1 Hs1 Ht1 Hpre) as (t' & Hs' & Ht' & Hr' & Hc').
    exists t'. rewrite receive_cons. repeat split; try done.
    + congruence.
    + change (emitted (e :: pre)) with (fragment e +:+ emitted pre).
      by rewrite Hc', Hc1, string_app_assoc.
Qed.

Lemma answering_step e s ms t :
  messages s = ms ++ [t] → answerIndex t = None → isAnswering e = true →
  ∃ t', messages (dispatch (message e) s) = ms ++ [t']
        ∧ answerIndex t' = Some (String.length (content t)) ∧ role t' = role t
        ∧ content t' = content t +:+ fragment e.
Proof.
  intros Hs Ht Hans. unfold isAnswering, fragment, isCase in *.
  apply andb_prop in Hans as [Hc Hst].
  apply bool_decide_eq_true in Hc, Hst.
  rewrite messages_receive_one, Hc, Hs, appendToken_snoc.
  exists (updatedTurn (Message.output e) (Message.state e) t).
  rewrite role_updatedTurn, content_updatedTurn, answerIndex_updatedTurn, Ht.
  rewrite bool_decide_eq_true_2 by done. by case_decide.
Qed.

(** Once a turn has a boundary, no worker event moves it. *)
Lemma boundary_kept_step e s j t a :
  messages s !! j = Some t → answerIndex t = Some a →
  ∃ t', messages (dispatch (message e) s) !! j = Some t'
        ∧ answerIndex t' = Some a ∧ role t' = role t.
Proof.
  intros Hj Ha. rewrite messages_receive_one.
  destruct (switch (Message.status e)); try (by exists t).
  - exists t. unfold appendAssistant. by rewrite lookup_app_l by by eapply lookup_lt_Some.
  - destruct (messages s) as [|x l _] using rev_ind; [done|].
    rewrite appendToken_snoc.
    destruct (decide (j < length l)) as [Hlt|Hge].
    + exists t. rewrite lookup_app_l in Hj |- * by done. done.
    + assert (j = length l) as ->.
      { apply lookup_lt_Some in Hj. rewrite length_app in Hj. simpl in Hj. lia. }
      rewrite list_lookup_middle in Hj |- * by done.
      injection Hj as ->.
      exists (updatedTurn (Message.output e) (Message.state e) t).
      by rewrite role_updatedTurn, answerIndex_updatedTurn, Ha.
Qed.

Lemma boundary_kept evs : ∀ s j t a,
  messages s !! j = Some t → answerIndex t = Some a →
  ∃ t', messages (receive evs s) !! j = Some t'
        ∧ answerIndex t' = Some a ∧ role t' = role t.
Proof.
  induction evs as [|e evs IH]; intros s j t a Hj Ha.
  - by exists t.
  - destruct (boundary_kept_step e s j t a Hj Ha) as (t1 & Hj1 & Ha1 & Hr1).
    destruct (IH _ j t1 a Hj1 Ha1) as (t' & ? & ? & ?).
    exists t'. rewrite receive_cons. repeat split; congruence.
Qed.

(** C1: let the last turn have no boundary yet, and let [e] be the first
    answering update of the events that follow, no "start" coming before
    it.  Then, however the stream continues, that turn's [answerIndex] is
    the length its content had right before [e]: the content it started
    with plus everything the earlier events appended.  A boundary that is
    set is never changed by later events.  The four-event example of the
    specification gives "Hi there" with boundary 2 and a cleared running
    flag. *)
Theorem answerIndex_is_first_answering_offset :
  (∀ (s : State) (ms : list ChatMessage) (t : ChatMessage)
     (pre post : list MessageData) (e : MessageData),
      messages s = ms ++ [t] → answerIndex t = None →
      forallb (λ x, negb (isCase CaseStart x) && negb (isAnswering x)) pre = true →
      isAnswering e = true →
      ∃ t', messages (receive (pre ++ e :: post) s) !! length ms = Some t'
            ∧ role t' = role t
            ∧ answerIndex t' = Some (String.length (content t +:+ emitted pre)))
  ∧ (∀ (s : State) (j : nat) (t : ChatMessage) (a : nat) (evs : list MessageData),
      messages s !! j = Some t → answerIndex t = Some a →
      ∃ t', messages (receive evs s) !! j = Some t' ∧ answerIndex t' = Some a)
  ∧ (∀ s : State,
      let s' := receive [evStart; evUpdate "Hi" "thinking";
                         evUpdate " there" "answering"; evComplete] s in
      messages s' = messages s ++ [mkChatMessage assistant "Hi there" (Some 2)]
      ∧ isRunning s' = false).
Proof.
  split; [|split].
  - intros s ms t pre post e Hs Ht Hpre He.
    destruct (thinking_steps pre s ms t Hs Ht Hpre) as (t1 & Hs1 & Ht1 & Hr1 & Hc1).
    destruct (answering_step e _ ms t1 Hs1 Ht1 He) as (t2 & Hs2 & Ht2 & Hr2 & _).
    destruct (boundary_kept post (dispatch (message e) (receive pre s))
                (length ms) t2 (String.length (content t1)))
      as (t' & Hj & Ha & Hr); [by rewrite Hs2, list_lookup_middle | done |].
    exists t'. rewrite receive_app, receive_cons. repeat split; congruence.
  - intros s j t a evs Hj Ha.
    destruct (boundary_kept evs s j t a Hj Ha) as (t' & ? & ? & _). by exists t'.
  - intros s. cbv zeta. rewrite !receive_cons.
    change (receive [] ?x) with x. split.
    + rewrite !messages_receive_one.
      change (switch (Message.status evComplete)) with CaseComplete.
      change (switch (Message.status (evUpdate " there" "answering")))
        with CaseUpdate.
      change (switch (Message.status (evUpdate "Hi" "thinking"))) with CaseUpdate.
      change (switch (Message.status evStart)) with CaseStart.
      unfold appendAssistant. by rewrite !appendToken_snoc.
    + unfold dispatch at 1.
      destruct (depsChanged _ _); [by rewrite isRunning_generateEffect | done].
Qed.

Lemma answerIndex_is_first_answering_offset_witness :
  ∃ t', messages (receive ([evUpdate "Hi" "thinking"]
                           ++ evUpdate " there" "answering" :: [evComplete])
                    (dispatch (message evStart) (onEnter "q" mounted)))
          !! length [mkChatMessage user "q" None] = Some t'
        ∧ role t' = role (mkChatMessage assistant "" None)
        ∧ answerIndex t' =
            Some (String.length
                    (content (mkChatMessage assistant "" None)
                     +:+ emitted [evUpdate "Hi" "thinking"])).
Proof.
  exact (proj1 answerIndex_is_first_answering_offset
           (dispatch (message evStart) (onEnter "q" mounted))
           [mkChatMessage user "q" None] (mkChatMessage assistant "" None)
           [evUpdate "Hi" "thinking"] [evComplete]
           (evUpdate " there" "answering")
           eq_refl eq_refl eq_refl eq_refl).
Defined.

(** ** The progress tracker *)

Lemma depsChanged_same s : depsChanged s s = false.
Proof. unfold depsChanged. by rewrite !bool_decide_eq_true_2. Qed.

Lemma setProgressItems_id f s :
  f (progressItems s) = progressItems s → setProgressItems f s = s.
Proof. destruct s. unfold setProgressItems. simpl. by intros ->. Qed.

Lemma dispatch_setProgressItems e s f :
  onMessageReceived e s = setProgressItems f s →
  dispatch (message e) s = setProgressItems f s.
Proof.
  intros H. unfold dispatch. simpl. rewrite H.
  unfold depsChanged. simpl. by rewrite !bool_decide_eq_true_2.
Qed.

Lemma progressItems_generateEffect s :
  progressItems (generateEffect s) = progressItems s.
Proof.
  unfold generateEffect, postMessage. repeat case_decide; try done.
  simpl. by destruct (worker s).
Qed.

Lemma progressItems_receive_one e s :
  progressItems (dispatch (message e) s) =
  match switch (Message.status e) with
  | CaseInitiate => progressItems s ++ [e]
  | CaseProgress =>
      (λ item, if decide (Message.file item = Message.file e)
               then Message.withProgress item (Message.progress e) (Message.total e)
               else item) <$> progressItems s
  | CaseDone => filter (λ item, Message.file item ≠ Message.file e) (progressItems s)
  | _ => progressItems s
  end.
Proof.
  unfold dispatch. simpl.
  assert (progressItems (onMessageReceived e s) =
          match switch (Message.status e) with
          | CaseInitiate => progressItems s ++ [e]
          | CaseProgress =>
              (λ item, if decide (Message.file item = Message.file e)
                       then Message.withProgress item (Message.progress e)
                              (Message.total e)
                       else item) <$> progressItems s
          | CaseDone =>
              filter (λ item, Message.file item ≠ Message.file e) (progressItems s)
          | _ => progressItems s
          end) as <-.
  { unfold onMessageReceived.
    destruct (switch _); simpl; try done; by destruct (Message.data e). }
  destruct (depsChanged _ _); [apply progressItems_generateEffect | done].
Qed.

Lemma files_progress f p t items :
  files ((λ item, if decide (Message.file item = f)
                  then Message.withProgress item p t else item) <$> items)
  = files items.
Proof.
  unfold files. rewrite <- list_fmap_compose. apply list_fmap_ext.
  intros i item _. simpl. by case_decide.
Qed.

Lemma files_done f items :
  files (filter (λ item, Message.file item ≠ f) items) = filter (λ g, g ≠ f) (files items).
Proof.
  unfold files. induction items as [|x items IH]; [done|].
  rewrite fmap_cons, !filter_cons.
  destruct (decide (Message.file x ≠ f)); [rewrite fmap_cons|]; by rewrite IH.
Qed.

Lemma progress_unmatched f p t items :
  f ∉ files items →
  (λ item, if decide (Message.file item = f)
           then Message.withProgress item p t else item) <$> items = items.
Proof.
  unfold files. induction items as [|x items IH]; [done|].
  intros Hf. rewrite fmap_cons in Hf. apply not_elem_of_cons in Hf as [Hx Hf].
  rewrite fmap_cons, IH by done. case_decide; [congruence | done].
Qed.

Lemma done_unmatched f items :
  f ∉ files items → filter (λ item, Message.file item ≠ f) items = items.
Proof.
  unfold files. induction items as [|x items IH]; [done|].
  intros Hf. rewrite fmap_cons in Hf. apply not_elem_of_cons in Hf as [Hx Hf].
  rewrite filter_cons, IH by done. case_decide; [done | congruence].
Qed.

Lemma NoDup_step e s :
  NoDup (files (progressItems s)) →
  (isCase CaseInitiate e = true → Message.file e ∉ files (progressItems s)) →
  NoDup (files (progressItems (dispatch (message e) s))).
Proof.
  intros Hnd Hfresh. rewrite progressItems_receive_one.
  unfold isCase in Hfresh.
  destruct (switch (Message.status e)); try done.
  - unfold files in *. rewrite fmap_app. simpl.
    apply NoDup_app. split; [done|]. split; [|apply NoDup_singleton].
    intros f Hf ->%list_elem_of_singleton.
    by apply Hfresh; [apply bool_decide_eq_true_2|].
  - by rewrite files_progress.
  - rewrite files_done. by apply NoDup_filter.
Qed.

(** C2, as the reducer has it: "initiate" appends without looking for the
    file, so the tracker holds one item per file identifier as long as
    every "initiate" names a file that is not tracked when it arrives;
    "progress", "done" and every other event keep it so. *)
Theorem tracker_files_unique_when_initiates_fresh :
  ∀ (evs : list MessageData) (s : State),
    NoDup (files (progressItems s)) →
    freshInitiates evs s = true →
    NoDup (files (progressItems (receive evs s))).
Proof.
  induction evs as [|e evs IH]; intros s Hnd Hfresh; [done|].
  simpl in Hfresh. apply andb_prop in Hfresh as [He Hevs].
  rewrite receive_cons. apply IH; [|done].
  apply NoDup_step; [done|]. intros Hi. rewrite Hi in He.
  by apply bool_decide_eq_true in He.
Qed.

Lemma tracker_files_unique_when_initiates_fresh_witness :
  NoDup (files (progressItems
                  (receive [evInitiate "model.onnx"; evInitiate "tokenizer.json";
                            evProgress "model.onnx" (Num 50) (Num 1536);
                            evDone "model.onnx"; evInitiate "model.onnx"]
                     mounted))).
Proof.
  apply (tracker_files_unique_when_initiates_fresh
           [evInitiate "model.onnx"; evInitiate "tokenizer.json";
            evProgress "model.onnx" (Num 50) (Num 1536);
            evDone "model.onnx"; evInitiate "model.onnx"] mounted).
  - apply NoDup_nil_2.
  - vm_compute. reflexivity.
Defined.

(** Two "initiate" events for one file leave two items with that file. *)
Lemma tracker_duplicate_after_two_initiates :
  ¬ NoDup (files (progressItems
                    (receive [evInitiate "model.onnx"; evInitiate "model.onnx"]
                       mounted))).
Proof.
  intros H. vm_compute in H.
  apply NoDup_cons in H as [H _]. apply H. apply list_elem_of_singleton. reflexivity.
Qed.

Lemma switch_unknown e : knownStatus e = false → switch (Message.status e) = NoCase.
Proof.
  unfold knownStatus, switch, caseLabels.
  destruct (Message.status e) as [st|]; [|done].
  intros H%bool_decide_eq_false.
  repeat match goal with
         | |- context [String.eqb st ?label] =>
             destruct (String.eqb_spec st label) as [->|_];
             [exfalso; apply H; repeat constructor|]
         end.
  done.
Qed.

Lemma dispatch_unchanged a s : handle a s = s → dispatch a s = s.
Proof. intros H. unfold dispatch. simpl. by rewrite H, depsChanged_same. Qed.

(** C7: an event whose status is missing or is none of the nine labels
    changes nothing, and neither does a "progress" or "done" event for a
    file that is not tracked; after "done" for a file that file is not
    tracked, so a later "progress" for it changes nothing either.  The
    handler is a total function: there is no failing path. *)
Theorem unmatched_events_change_nothing :
  (∀ (e : MessageData) (s : State),
      knownStatus e = false → dispatch (message e) s = s)
  ∧ (∀ (e : MessageData) (s : State),
      (isCase CaseProgress e || isCase CaseDone e) = true →
      Message.file e ∉ files (progressItems s) →
      dispatch (message e) s = s)
  ∧ (∀ (d u : MessageData) (s : State),
      isCase CaseDone d = true → isCase CaseProgress u = true →
      Message.file u = Message.file d →
      (Message.file d ∉ files (progressItems (dispatch (message d) s)))
      ∧ dispatch (message u) (dispatch (message d) s) = dispatch (message d) s).
Proof.
  assert (Hmiss : ∀ e s,
             (isCase CaseProgress e || isCase CaseDone e) = true →
             Message.file e ∉ files (progressItems s) →
             dispatch (message e) s = s).
  { intros e s Hc Hf. apply dispatch_unchanged. simpl.
    unfold isCase in Hc. apply orb_prop in Hc as [Hc|Hc];
      apply bool_decide_eq_true in Hc; unfold onMessageReceived; rewrite Hc;
      apply setProgressItems_id.
    - by apply progress_unmatched.
    - by apply done_unmatched. }
  split; [|split].
  - intros e s Hk. apply dispatch_unchanged. simpl.
    unfold onMessageReceived. by rewrite (switch_unknown e Hk).
  - exact Hmiss.
  - intros d u s Hd Hu Hfile.
    assert (Message.file d ∉ files (progressItems (dispatch (message d) s))) as Hgone.
    { rewrite progressItems_receive_one.
      unfold isCase in Hd. apply bool_decide_eq_true in Hd. rewrite Hd.
      rewrite files_done. rewrite list_elem_of_filter. tauto. }
    split; [done|]. apply Hmiss; [by rewrite Hu | by rewrite Hfile].
Qed.

Lemma unmatched_events_change_nothing_witness :
  dispatch (message (Message.bare "heartbeat")) mounted = mounted
  ∧ dispatch (message (evProgress "model.onnx" (Num 10) (Num 2048)))
      (receive [evInitiate "tokenizer.json"] mounted)
    = receive [evInitiate "tokenizer.json"] mounted
  ∧ Some "model.onnx" ∉
      files (progressItems
               (dispatch (message (evDone "model.onnx"))
                  (receive [evInitiate "model.onnx"] mounted))).
Proof.
  split; [|split].
  - apply (proj1 unmatched_events_change_nothing
             (Message.bare "heartbeat") mounted).
    vm_compute. reflexivity.
  - apply (proj1 (proj2 unmatched_events_change_nothing)
             (evProgress "model.onnx" (Num 10) (Num 2048))
             (receive [evInitiate "tokenizer.json"] mounted)).
    + vm_compute. reflexivity.
    + vm_compute. intros H. apply list_elem_of_singleton in H. discriminate H.
  - apply (proj2 (proj2 unmatched_events_change_nothing)
             (evDone "model.onnx") (evProgress "model.onnx" (Num 10) (Num 2048))
             (receive [evInitiate "model.onnx"] mounted));
      vm_compute; reflexivity.
Defined.

(** ** The worker phase *)

Lemma status_postMessage c s : status (postMessage c s) = status s.
Proof. unfold postMessage. by destruct (worker s). Qed.

Lemma status_generateEffect s : status (generateEffect s) = status s.
Proof.
  unfold generateEffect. repeat case_decide; try done.
  by rewrite status_postMessage.
Qed.

Lemma status_dispatch a s : status (dispatch a s) = status (handle a s).
Proof.
  unfold dispatch. destruct (depsChanged _ _); [apply status_generateEffect | done].
Qed.

Lemma status_onMessageReceived e s :
  status (onMessageReceived e s) =
  match switch (Message.status e) with
  | CaseLoading => Some "loading"
  | CaseReady => Some "ready"
  | _ => status s
  end.
Proof.
  unfold onMessageReceived.
  destruct (switch _); simpl; try done; by destruct (Message.data e).
Qed.

Lemma status_onEnter msg s : status (onEnter msg s) = status s.
Proof. done. Qed.

(** The user's handlers leave a phase that is set as it is. *)
Lemma status_handle_user a s :
  (∀ e, a ≠ message e) → status s ≠ None → status (handle a s) = status s.
Proof.
  intros Ha Hs. destruct a as [e|key shift|v| |i| |]; simpl.
  - by destruct (Ha e).
  - unfold onKeyDown. by destruct (_ && _).
  - done.
  - unfold onSendClick, onInterrupt.
    destruct (isRunning s); [apply status_postMessage|]. by case_bool_decide.
  - unfold onExampleClick. destruct (examplesShown s); [|done].
    by destruct (EXAMPLES !! i).
  - unfold onResetClick. destruct (resetShown s); [|done].
    destruct (worker s); [|done]. simpl. apply status_postMessage.
  - unfold onLoadClick. rewrite bool_decide_eq_true_2; [done | by left].
Qed.

Lemma status_step_set a s : status s ≠ None → status (dispatch a s) ≠ None.
Proof.
  intros Hs. rewrite status_dispatch.
  destruct a as [e| | | | | |];
    try (rewrite status_handle_user; [done | done | done]).
  simpl. rewrite status_onMessageReceived. by destruct (switch _).
Qed.

Lemma status_step_ready a s :
  status s = Some "ready" → isLoadingEvent a = false →
  status (dispatch a s) = Some "ready".
Proof.
  intros Hs Ha. rewrite status_dispatch.
  destruct a as [e| | | | | |];
    try (rewrite status_handle_user; [done | done | by rewrite Hs]).
  simpl in *. rewrite status_onMessageReceived.
  unfold isCase in Ha. apply bool_decide_eq_false in Ha.
  by destruct (switch _).
Qed.

(** C4, as the component has it: the phase never goes back to unset, and
    a ready phase stays ready under every action except a "loading"
    status event; that event sets the phase to loading whatever it was,
    ready included. *)
Theorem phase_ready_until_loading_event :
  (∀ (acts : list Action) (s : State),
      status s ≠ None → status (run acts s) ≠ None)
  ∧ (∀ (acts : list Action) (s : State),
      status s = Some "ready" →
      forallb (λ a, negb (isLoadingEvent a)) acts = true →
      status (run acts s) = Some "ready")
  ∧ (∀ (e : MessageData) (s : State),
      isCase CaseLoading e = true →
      status (dispatch (message e) s) = Some "loading").
Proof.
  split; [|split].
  - induction acts as [|a acts IH]; intros s Hs; [done|].
    apply IH. by apply status_step_set.
  - induction acts as [|a acts IH]; intros s Hs Hacts; [done|].
    simpl in Hacts. apply andb_prop in Hacts as [Ha Hacts].
    apply negb_true_iff in Ha. apply IH; [|done]. by apply status_step_ready.
  - intros e s He. rewrite status_dispatch. simpl.
    rewrite status_onMessageReceived.
    unfold isCase in He. apply bool_decide_eq_true in He. by rewrite He.
Qed.

Lemma phase_ready_until_loading_event_witness :
  status (run [inputText "hi"; keyDown "Enter" false; message evStart;
               message (evUpdate "Hello" "answering"); message evComplete;
               clickLoad; clickReset]
            (receive [evLoading "Loading model..."; evReady] mounted))
  = Some "ready".
Proof.
  apply (proj1 (proj2 phase_ready_until_loading_event)
           [inputText "hi"; keyDown "Enter" false; message evStart;
            message (evUpdate "Hello" "answering"); message evComplete;
            clickLoad; clickReset]
           (receive [evLoading "Loading model..."; evReady] mounted));
    vm_compute; reflexivity.
Defined.

(** A "loading" status after "ready" puts the phase back to loading. *)
Lemma phase_reverts_on_loading_after_ready :
  status (receive [evReady] mounted) = Some "ready"
  ∧ status (receive [evReady; evLoading "Loading model..."] mounted) ≠ Some "ready".
Proof. split; [reflexivity|]. vm_compute. discriminate. Qed.

(** ** Reset and submit *)

(** C3, as the handler has it: where the Reset link is on screen (ready
    phase, a truthy [tps], a non-empty transcript, nothing running) and
    the worker is in place, a click posts the "reset" command and empties
    the transcript; [tps], which is set, and [numTokens] keep their
    values, and the metrics line, which is rendered only for a non-empty
    transcript, is no longer shown. *)
Theorem reset_clears_transcript_keeps_metrics :
  ∀ (s : State) (sent : list Command),
    worker s = Some sent → resetShown s = true →
    messages (dispatch clickReset s) = []
    ∧ worker (dispatch clickReset s) = Some (sent ++ [reset])
    ∧ tps (dispatch clickReset s) = tps s
    ∧ tps (dispatch clickReset s) ≠ None
    ∧ numTokens (dispatch clickReset s) = numTokens s
    ∧ metricsShown (dispatch clickReset s) = false.
Proof.
  intros s sent Hw Hshown.
  assert (dispatch clickReset s = setMessages (λ _, []) (postMessage reset s)) as ->.
  { unfold dispatch. simpl. unfold onResetClick. rewrite Hshown, Hw.
    destruct (depsChanged _ _); [|done].
    unfold generateEffect. simpl. done. }
  unfold resetShown, metricsShown in Hshown.
  apply andb_prop in Hshown as [Hshown _]. apply andb_prop in Hshown as [_ Hshown].
  apply andb_prop in Hshown as [Htps _].
  unfold postMessage, metricsShown. rewrite Hw. simpl.
  repeat split; [|apply andb_false_r]. by destruct (tps s).
Qed.

Lemma reset_clears_transcript_keeps_metrics_witness :
  let s := run [message evReady; inputText "hi"; keyDown "Enter" false;
                message evStart;
                message (evUpdateWith "Hello" "answering" (Num 12) (Num 34));
                message evComplete] mounted in
  messages s = [mkChatMessage user "hi" None;
                mkChatMessage assistant "Hello" (Some 0)]
  ∧ tps s = Some (Num 12) ∧ numTokens s = Some (Num 34)
  ∧ messages (dispatch clickReset s) = []
  ∧ worker (dispatch clickReset s)
    = Some ([check; generate [mkChatMessage user "hi" None]] ++ [reset])
  ∧ tps (dispatch clickReset s) = tps s
  ∧ tps (dispatch clickReset s) ≠ None
  ∧ numTokens (dispatch clickReset s) = numTokens s
  ∧ metricsShown (dispatch clickReset s) = false.
Proof.
  intros s. split; [reflexivity|]. split; [reflexivity|]. split; [reflexivity|].
  exact (reset_clears_transcript_keeps_metrics s
           [check; generate [mkChatMessage user "hi" None]] eq_refl eq_refl).
Defined.

(** After one generation cycle that reported 12 tokens per second and 34
    tokens, Reset leaves both metrics in place. *)
Lemma reset_leaves_metrics_set :
  let s := run [message evReady; inputText "hi"; keyDown "Enter" false;
                message evStart;
                message (evUpdateWith "Hello" "answering" (Num 12) (Num 34));
                message evComplete; clickReset] mounted in
  messages s = [] ∧ tps s ≠ None ∧ numTokens s ≠ None.
Proof. vm_compute. repeat split; discriminate. Qed.

(** ** The generate trigger *)

Lemma lastRole_snoc ms t : lastRole (ms ++ [t]) = Some (role t).
Proof. unfold lastRole. by rewrite last_snoc. Qed.

Lemma lastRole_appendToken output state ms :
  lastRole (appendToken output state ms) = lastRole ms.
Proof.
  destruct ms as [|x l _] using rev_ind; [done|].
  by rewrite appendToken_snoc, !lastRole_snoc, role_updatedTurn.
Qed.

Lemma generateEffect_quiet s :
  lastRole (messages s) ≠ Some user → generateEffect s = s.
Proof.
  unfold generateEffect, lastRole. intros Hlast.
  case_decide as Hn; [done|]. case_decide as Ha; [done|].
  destruct (messages s) as [|x l _] using rev_ind; [done|].
  rewrite last_snoc in Hlast, Ha. simpl in *. by destruct (role x).
Qed.

Lemma generateEffect_fire s :
  lastRole (messages s) = Some user →
  generateEffect s = postMessage (generate (messages s)) (setTps None s).
Proof.
  unfold generateEffect, lastRole. intros Hlast.
  destruct (messages s) as [|x l _] using rev_ind; [done|].
  rewrite last_snoc in Hlast |- *. simpl in Hlast. injection Hlast as Hx.
  rewrite decide_False; [rewrite decide_False; [done|] |].
  - simpl. by rewrite Hx.
  - rewrite filter_app, length_app, filter_cons, decide_True by done. simpl. lia.
Qed.

Lemma generates_postMessage c s sent :
  worker s = Some sent →
  worker (postMessage c s) = Some (sent ++ [c])
  ∧ generates (postMessage c s)
    = generates s ++ match c with generate d => [d] | _ => [] end.
Proof.
  intros Hw. unfold generates, postMessage. rewrite Hw. simpl.
  split; [done|]. rewrite omap_app. by destruct c.
Qed.

Lemma dispatch_no_deps a s :
  messagesRef (handle a s) = messagesRef s →
  isRunning (handle a s) = isRunning s →
  dispatch a s = handle a s.
Proof.
  intros Hm Hr. unfold dispatch, depsChanged. simpl.
  by rewrite Hm, Hr, !bool_decide_eq_true_2.
Qed.

Lemma dispatch_quiet a s :
  lastRole (messages (handle a s)) ≠ Some user → dispatch a s = handle a s.
Proof.
  intros H. unfold dispatch. destruct (depsChanged _ _); [|done].
  by apply generateEffect_quiet.
Qed.

Lemma worker_onMessageReceived e s : worker (onMessageReceived e s) = worker s.
Proof.
  unfold onMessageReceived.
  destruct (switch _); simpl; try done; by destruct (Message.data e).
Qed.

(** A worker event that keeps the order posts nothing. *)
Lemma message_posts_nothing e s :
  inOrder (message e) s = true →
  worker (dispatch (message e) s) = worker s.
Proof.
  intros Hord. simpl in Hord.
  destruct (decide (switch (Message.status e) = CaseStart)) as [Hst|Hst].
  { rewrite dispatch_quiet; [apply worker_onMessageReceived|].
    simpl. rewrite messages_onMessageReceived, Hst.
    unfold appendAssistant. by rewrite lastRole_snoc. }
  case_bool_decide as Hlast.
  - apply andb_prop in Hord as [Hu Hc]. apply negb_true_iff in Hu, Hc.
    unfold isCase in Hu, Hc. apply bool_decide_eq_false in Hu, Hc.
    rewrite dispatch_no_deps; [apply worker_onMessageReceived | |];
      simpl; unfold onMessageReceived;
      destruct (switch _); simpl; try done; by destruct (Message.data e).
  - rewrite dispatch_quiet; [apply worker_onMessageReceived|].
    simpl. rewrite messages_onMessageReceived.
    destruct (switch _); try done. by rewrite lastRole_appendToken.
Qed.

(** A submission posts one "generate" with the new transcript. *)
Lemma onEnter_posts_generate a s sent text :
  worker s = Some sent → handle a s = onEnter text s →
  worker (dispatch a s)
  = Some (sent ++ [generate (messages s ++ [mkChatMessage user text None])])
  ∧ messages (dispatch a s) = messages s ++ [mkChatMessage user text None].
Proof.
  intros Hw Ha. unfold dispatch. rewrite Ha.
  assert (depsChanged s (onEnter text s) = true) as ->.
  { unfold depsChanged. simpl. rewrite bool_decide_eq_false_2; [done | lia]. }
  rewrite generateEffect_fire by (simpl; apply lastRole_snoc).
  unfold postMessage. simpl. by rewrite Hw.
Qed.

Lemma generates_worker s sent :
  worker s = Some sent →
  generates s = omap (λ c, match c with generate d => Some d | _ => None end) sent.
Proof. unfold generates. by intros ->. Qed.

Lemma generate_step a s sent :
  worker s = Some sent → inOrder a s = true →
  (∃ sent', worker (dispatch a s) = Some sent')
  ∧ generates (dispatch a s)
    = generates s ++ match submits a s with
                     | Some text => [messages s ++ [mkChatMessage user text None]]
                     | None => []
                     end
  ∧ (∀ text, submits a s = Some text →
       messages (dispatch a s) = messages s ++ [mkChatMessage user text None]).
Proof.
  intros Hw Hord.
  assert (Hsub : ∀ text, handle a s = onEnter text s → submits a s = Some text →
            (∃ sent', worker (dispatch a s) = Some sent')
            ∧ generates (dispatch a s)
              = generates s ++ [messages s ++ [mkChatMessage user text None]]
            ∧ (∀ text', Some text = Some text' →
                 messages (dispatch a s)
                 = messages s ++ [mkChatMessage user text' None])).
  { intros text Ha _.
    destruct (onEnter_posts_generate a s sent text Hw Ha) as [Hw' Hm].
    split; [by eexists|]. split.
    - rewrite (generates_worker _ _ Hw'), (generates_worker _ _ Hw).
      by rewrite omap_app.
    - by intros text' [= <-]. }
  assert (Hsame : worker (dispatch a s) = worker s → submits a s = None →
            (∃ sent', worker (dispatch a s) = Some sent')
            ∧ generates (dispatch a s) = generates s ++ []
            ∧ (∀ text, None = Some text →
                 messages (dispatch a s)
                 = messages s ++ [mkChatMessage user text None])).
  { intros Hw' _. split; [exists sent; congruence|]. split; [|done].
    unfold generates. by rewrite Hw', app_nil_r. }
  destruct a as [e|key shiftKey|v| |i| |].
  - apply Hsame; [by apply message_posts_nothing | done].
  - simpl. destruct (_ && _) eqn:Hg.
    + apply Hsub; simpl; unfold onKeyDown; by rewrite Hg.
    + apply Hsame; [|simpl; by rewrite Hg]. rewrite dispatch_unchanged; [done|].
      simpl. unfold onKeyDown. by rewrite Hg.
  - apply Hsame; [|done]. by rewrite dispatch_no_deps.
  - simpl. destruct (isRunning s) eqn:Hr.
    + assert (dispatch clickSend s = postMessage interrupt s) as Hd.
      { rewrite dispatch_no_deps; simpl; unfold onSendClick, onInterrupt;
          rewrite Hr; try done; unfold postMessage; by rewrite Hw. }
      destruct (generates_postMessage interrupt s sent Hw) as [Hw' Hg].
      rewrite Hd. split; [by eexists|]. by split.
    + case_bool_decide as Hin.
      * apply Hsub; simpl; unfold onSendClick;
          by rewrite Hr, ?bool_decide_eq_true_2.
      * apply Hsame; [|simpl; by rewrite Hr, bool_decide_eq_false_2].
        rewrite dispatch_unchanged; [done|].
        simpl. unfold onSendClick. by rewrite Hr, bool_decide_eq_false_2.
  - simpl. destruct (examplesShown s) eqn:Hshown.
    + destruct (EXAMPLES !! i) as [msg|] eqn:Hi.
      * apply Hsub; simpl; unfold onExampleClick; by rewrite Hshown, ?Hi.
      * apply Hsame; [|simpl; by rewrite Hshown, Hi].
        rewrite dispatch_unchanged; [done|].
        simpl. unfold onExampleClick. by rewrite Hshown, Hi.
    + apply Hsame; [|simpl; by rewrite Hshown].
      rewrite dispatch_unchanged; [done|].
      simpl. unfold onExampleClick. by rewrite Hshown.
  - destruct (resetShown s) eqn:Hshown.
    + assert (dispatch clickReset s = setMessages (λ _, []) (postMessage reset s))
        as Hd.
      { rewrite dispatch_quiet; simpl; unfold onResetClick; by rewrite Hshown, Hw. }
      destruct (generates_postMessage reset s sent Hw) as [Hw' Hg].
      rewrite Hd. split; [by eexists|]. split; [|done].
      unfold generates in *. simpl. by rewrite Hg.
    + apply Hsame; [|done]. rewrite dispatch_unchanged; [done|].
      simpl. unfold onResetClick. by rewrite Hshown.
  - simpl. assert (dispatch clickLoad s = onLoadClick s) as Hd.
    { apply dispatch_no_deps; simpl; unfold onLoadClick;
        case_bool_decide; try done; rewrite Hw; simpl; unfold postMessage;
        by rewrite Hw. }
    rewrite Hd. unfold onLoadClick. case_bool_decide.
    + split; [by eexists|]. split; [by rewrite app_nil_r | done].
    + rewrite Hw.
      destruct (generates_postMessage load s sent Hw) as [Hw' Hg].
      split; [by eexists|]. split; [|done].
      unfold generates in *. simpl. by rewrite Hg.
Qed.

(** ** Size formatting *)

(** [toFixed2] rounds to the nearest hundredth, a tie going up. *)
Lemma toFixed2_nearest (n scale : N) :
  (0 < scale)%N →
  (2 * scale * toFixed2 n scale ≤ 200 * n + scale
   ∧ 200 * n < 2 * scale * toFixed2 n scale + scale)%N.
Proof.
  intros Hs. unfold toFixed2.
  pose proof (N.Div0.mul_div_le (200 * n + scale) (2 * scale)) as Hlo.
  pose proof (N.mul_succ_div_gt (200 * n + scale) (2 * scale) ltac:(lia)) as Hhi.
  lia.
Qed.

Lemma showHundredths_cases (h : N) :
  ((h mod 100 = 0)%N → showHundredths h = pretty (h / 100)%N)
  ∧ ((h mod 100 ≠ 0)%N → (h mod 10 = 0)%N →
     showHundredths h = pretty (h / 100)%N +:+ "." +:+ pretty (h mod 100 / 10)%N)
  ∧ ((h mod 10 ≠ 0)%N →
     showHundredths h
     = pretty (h / 100)%N +:+ "." +:+ pretty (h mod 100 / 10)%N
       +:+ pretty (h mod 10)%N).
Proof.
  unfold showHundredths.
  pose proof (N.div_mod (h mod 100) 10 ltac:(lia)) as Hd.
  assert (((h mod 100) mod 10 = h mod 10)%N) as Hm.
  { change 100%N with (10 * 10)%N.
    rewrite N.Div0.mod_mul_r, (N.mul_comm 10), N.Div0.mod_add.
    apply N.Div0.mod_mod. }
  rewrite Hm in Hd.
  pose proof (N.mod_upper_bound h 100 ltac:(lia)) as H.
  pose proof (N.mod_upper_bound h 10 ltac:(lia)) as H0.
  clear Hm. revert Hd H H0.
  generalize (h mod 100 / 10)%N (h mod 10)%N (h mod 100)%N (pretty (h / 100)%N).
  intros d1 d2 m whole Hd Hm Hd2.
  repeat split; intros; repeat case_decide; try done; exfalso; lia.
Qed.

(** ** Copy on write *)

Lemma preserves_app (h ext : Refs.heap) : preserves h (h ++ ext).
Proof. intros l o Hl. by apply lookup_app_l_Some. Qed.

Lemma turnAt_app h ext r t :
  Refs.turnAt h r = Some t → Refs.turnAt (h ++ ext) r = Some t.
Proof.
  unfold Refs.turnAt. destruct (h !! r) as [o|] eqn:Hr; [|done].
  by rewrite (lookup_app_l_Some _ _ _ _ Hr).
Qed.

Lemma mapM_turnAt_app h ext items ms :
  mapM (Refs.turnAt h) items = Some ms →
  mapM (Refs.turnAt (h ++ ext)) items = Some ms.
Proof.
  rewrite !mapM_Some. intros H. eapply Forall2_impl; [exact H|].
  intros r t. apply turnAt_app.
Qed.

Lemma deref_inv h a ms :
  Refs.deref h a = Some ms →
  ∃ items, h !! a = Some (Refs.Array items)
           ∧ mapM (Refs.turnAt h) items = Some ms.
Proof.
  unfold Refs.deref. destruct (h !! a) as [[t|items]|]; try done. by exists items.
Qed.

Lemma deref_fresh h ext items ms :
  mapM (Refs.turnAt (h ++ Refs.Array items :: ext)) items = Some ms →
  Refs.deref (h ++ Refs.Array items :: ext) (length h) = Some ms.
Proof. unfold Refs.deref. by rewrite list_lookup_middle. Qed.

(** What the update updater computes. *)
Lemma appendTokenRef_run output state h prev items :
  h !! prev = Some (Refs.Array items) →
  match last items with
  | None =>
      Refs.appendTokenRef output state prev h
      = Some (length h, h ++ [Refs.Array items])
  | Some lastRef =>
      ∀ l, Refs.turnAt h lastRef = Some l →
           Refs.appendTokenRef output state prev h
           = Some (length h,
                   h ++ [Refs.Array (<[length items - 1 := S (length h)]> items);
                         Refs.Turn (updatedTurn output state l)])
  end.
Proof.
  intros Hprev.
  unfold Refs.appendTokenRef, mbind, Refs.M_bind, Refs.readArray. rewrite Hprev.
  unfold Refs.alloc. destruct (last items) as [lastRef|]; [|done].
  intros l Hl. unfold Refs.turnAt in Hl.
  destruct (h !! lastRef) as [[t|?]|] eqn:Hlast; try done.
  injection Hl as ->.
  unfold Refs.readTurn at 1.
  rewrite (lookup_app_l_Some _ _ _ _ Hlast).
  unfold Refs.readTurn.
  rewrite (list_lookup_middle (h ++ [Refs.Array items]) [] _ _ eq_refl).
  assert (length (h ++ [Refs.Array items]) = S (length h)) as Hlen1
    by (rewrite length_app; simpl; lia).
  assert (∀ u v : ChatMessage,
    <[S (length h) := Refs.Turn v]> ((h ++ [Refs.Array items]) ++ [Refs.Turn u])
    = (h ++ [Refs.Array items]) ++ [Refs.Turn v]) as Hupd.
  { intros u v. rewrite <- Hlen1.
    replace (length (h ++ [Refs.Array items]))
      with (length (h ++ [Refs.Array items]) + 0) at 1 by lia.
    by rewrite insert_app_r. }
  assert (∀ (u : ChatMessage) (x : list nat),
    <[length h := Refs.Array x]> ((h ++ [Refs.Array items]) ++ [Refs.Turn u])
    = h ++ [Refs.Array x; Refs.Turn u]) as Harr.
  { intros u x. rewrite <- app_assoc. simpl.
    replace (length h) with (length h + 0) at 1 by lia.
    by rewrite insert_app_r. }
  assert (∀ u : ChatMessage,
    ((h ++ [Refs.Array items]) ++ [Refs.Turn u]) !! length h
    = Some (Refs.Array items)) as Hcl.
  { intros u. rewrite <- app_assoc. simpl. by rewrite list_lookup_middle. }
  assert (∀ u : ChatMessage,
    length ((h ++ [Refs.Array items]) ++ [Refs.Turn u]) = S (S (length h)))
    as Hlen2.
  { intros u. rewrite !length_app. simpl. lia. }
  rewrite Hlen1. unfold updatedTurn. simpl.
  destruct (decide (answerIndex l = None ∧ state = Some "answering")) as [Hc|Hc].
  - unfold Refs.write. rewrite Hlen2, decide_True by lia.
    rewrite Hupd, Hcl, Hlen2, decide_True by lia.
    unfold mret, Refs.M_ret. by rewrite Harr.
  - unfold mret at 1, Refs.M_ret at 1.
    unfold Refs.write. rewrite Hcl, Hlen2, decide_True by lia.
    unfold mret, Refs.M_ret. by rewrite Harr.
Qed.

Lemma insert_last_snoc (its : list nat) (r x : nat) :
  <[length (its ++ [r]) - 1 := x]> (its ++ [r]) = its ++ [x].
Proof.
  rewrite length_app. simpl.
  replace (length its + 1 - 1) with (length its + 0) by lia.
  by rewrite insert_app_r.
Qed.

Lemma turnAt_second h (o : Refs.object) (t : ChatMessage) :
  Refs.turnAt (h ++ [o; Refs.Turn t]) (S (length h)) = Some t.
Proof.
  unfold Refs.turnAt.
  change (h ++ [o; Refs.Turn t]) with (h ++ [o] ++ [Refs.Turn t]).
  rewrite app_assoc, list_lookup_middle; [done|].
  rewrite length_app. simpl. lia.
Qed.

Lemma mapM_turnAt_snoc h ext its ms r t :
  mapM (Refs.turnAt h) its = Some ms →
  Refs.turnAt (h ++ ext) r = Some t →
  mapM (Refs.turnAt (h ++ ext)) (its ++ [r]) = Some (ms ++ [t]).
Proof.
  intros Hits Hr. apply mapM_Some. apply Forall2_app.
  - apply mapM_Some. by apply mapM_turnAt_app.
  - by repeat constructor.
Qed.

Lemma mapM_turnAt_snoc_inv h its r ms :
  mapM (Refs.turnAt h) (its ++ [r]) = Some ms →
  ∃ ms0 t, ms = ms0 ++ [t] ∧ mapM (Refs.turnAt h) its = Some ms0
           ∧ Refs.turnAt h r = Some t.
Proof.
  intros H%mapM_Some. apply Forall2_app_inv_l in H as (ms0 & k & Hits & Hr & ->).
  inversion Hr as [|? t ? k' Ht Hnil]; subst. inversion Hnil; subst.
  exists ms0, t. by rewrite mapM_Some.
Qed.

(** The two appending updaters share their shape. *)
Lemma appendTurnRef_run (t : ChatMessage) h prev items ms :
  h !! prev = Some (Refs.Array items) →
  mapM (Refs.turnAt h) items = Some ms →
  let h' := h ++ [Refs.Turn t; Refs.Array (items ++ [length h])] in
  preserves h h'
  ∧ h' !! S (length h) = Some (Refs.Array (items ++ [length h]))
  ∧ Refs.deref h' (S (length h)) = Some (ms ++ [t]).
Proof.
  intros Hprev Hms h'. subst h'.
  assert ((h ++ [Refs.Turn t; Refs.Array (items ++ [length h])]) !! S (length h)
          = Some (Refs.Array (items ++ [length h]))) as Hl.
  { change (h ++ [Refs.Turn t; Refs.Array (items ++ [length h])])
      with (h ++ [Refs.Turn t] ++ [Refs.Array (items ++ [length h])]).
    rewrite app_assoc, list_lookup_middle; [done|].
    rewrite length_app. simpl. lia. }
  split; [apply preserves_app|]. split; [done|].
  unfold Refs.deref. rewrite Hl. apply mapM_turnAt_snoc; [done|].
  unfold Refs.turnAt. by rewrite list_lookup_middle.
Qed.

(** C8: each of the four updaters of the transcript allocates: every
    object that was on the heap, turns and the previous array alike, is
    still there unchanged, and the result is a new array.  For "update"
    the new array has the old length, holds the old references at every
    index but the last, and at the last index a newly allocated turn with
    the updated fields; the appending updaters keep all old references
    and add one new turn.  Read as values, the new arrays are what the
    updaters on lists compute. *)
Theorem transcript_updates_copy_on_write :
  (∀ (output state : option string) (h : Refs.heap) (prev : Refs.loc)
     (ms : list ChatMessage),
      Refs.deref h prev = Some ms →
      ∃ (cloned : Refs.loc) (h' : Refs.heap) (items items' : list Refs.loc),
        Refs.appendTokenRef output state prev h = Some (cloned, h')
        ∧ h !! prev = Some (Refs.Array items)
        ∧ preserves h h'
        ∧ (length h ≤ cloned)%nat
        ∧ h' !! cloned = Some (Refs.Array items')
        ∧ length items' = length items
        ∧ (∀ i, i ≠ length items - 1 → items' !! i = items !! i)
        ∧ (∀ lastRef l, last items = Some lastRef →
                        Refs.turnAt h lastRef = Some l →
             ∃ u, last items' = Some u ∧ (length h ≤ u)%nat
                  ∧ Refs.turnAt h' u = Some (updatedTurn output state l))
        ∧ Refs.deref h' cloned = Some (appendToken output state ms))
  ∧ (∀ (text : string) (h : Refs.heap) (prev : Refs.loc) (ms : list ChatMessage),
      Refs.deref h prev = Some ms →
      ∃ (cloned : Refs.loc) (h' : Refs.heap) (items : list Refs.loc)
        (turn : Refs.loc),
        Refs.appendUserRef text prev h = Some (cloned, h')
        ∧ h !! prev = Some (Refs.Array items)
        ∧ preserves h h' ∧ (length h ≤ cloned)%nat ∧ (length h ≤ turn)%nat
        ∧ h' !! cloned = Some (Refs.Array (items ++ [turn]))
        ∧ Refs.deref h' cloned = Some (appendUser text ms))
  ∧ (∀ (h : Refs.heap) (prev : Refs.loc) (ms : list ChatMessage),
      Refs.deref h prev = Some ms →
      ∃ (cloned : Refs.loc) (h' : Refs.heap) (items : list Refs.loc)
        (turn : Refs.loc),
        Refs.appendAssistantRef prev h = Some (cloned, h')
        ∧ h !! prev = Some (Refs.Array items)
        ∧ preserves h h' ∧ (length h ≤ cloned)%nat ∧ (length h ≤ turn)%nat
        ∧ h' !! cloned = Some (Refs.Array (items ++ [turn]))
        ∧ Refs.deref h' cloned = Some (appendAssistant ms))
  ∧ (∀ (h : Refs.heap) (prev : Refs.loc),
      ∃ (cloned : Refs.loc) (h' : Refs.heap),
        Refs.resetRef prev h = Some (cloned, h')
        ∧ preserves h h' ∧ (length h ≤ cloned)%nat
        ∧ Refs.deref h' cloned = Some []).
Proof.
  split; [|split; [|split]].
  - intros output state h prev ms Hd.
    destruct (deref_inv h prev ms Hd) as (items & Hprev & Hms).
    pose proof (appendTokenRef_run output state h prev items Hprev) as Hrun.
    destruct items as [|lastRef its _] using rev_ind.
    + simpl in Hrun, Hms. injection Hms as <-.
      exists (length h), (h ++ [Refs.Array []]), [], [].
      split; [done|]. split; [done|]. split; [apply preserves_app|].
      split; [done|]. split; [by rewrite list_lookup_middle|].
      split; [done|]. split; [done|]. split; [done|].
      by apply deref_fresh.
    + rewrite last_snoc in Hrun.
      destruct (mapM_turnAt_snoc_inv h its lastRef ms Hms)
        as (ms0 & l & -> & Hits & Hl).
      specialize (Hrun l Hl). rewrite insert_last_snoc in Hrun.
      exists (length h),
        (h ++ [Refs.Array (its ++ [S (length h)]);
               Refs.Turn (updatedTurn output state l)]),
        (its ++ [lastRef]), (its ++ [S (length h)]).
      split; [done|]. split; [done|]. split; [apply preserves_app|].
      split; [done|]. split; [by rewrite list_lookup_middle|].
      split; [by rewrite !length_app|]. split; [|split].
      * intros i Hi. rewrite length_app in Hi. simpl in Hi.
        destruct (decide (i < length its)) as [Hlt|Hge].
        -- by rewrite !lookup_app_l.
        -- rewrite !lookup_ge_None_2; [done | |]; rewrite length_app; simpl; lia.
      * intros lastRef' l' Hlast Hl'. rewrite last_snoc in Hlast.
        injection Hlast as <-. rewrite Hl in Hl'. injection Hl' as <-.
        exists (S (length h)). rewrite last_snoc.
        split; [done|]. split; [lia|]. apply turnAt_second.
      * rewrite appendToken_snoc. apply deref_fresh.
        apply mapM_turnAt_snoc; [done|]. apply turnAt_second.
  - intros text h prev ms Hd.
    destruct (deref_inv h prev ms Hd) as (items & Hprev & Hms).
    destruct (appendTurnRef_run (mkChatMessage user text None) h prev items ms
                Hprev Hms) as (Hp & Hl & Hr).
    eexists (S (length h)), _, items, (length h).
    split; [|split; [done|]; split; [exact Hp|]; split; [lia|]; split; [lia|];
             split; [exact Hl | exact Hr]].
    unfold Refs.appendUserRef, mbind, Refs.M_bind, Refs.readArray, Refs.alloc.
    rewrite Hprev, length_app. simpl.
    by rewrite <- app_assoc, Nat.add_1_r.
  - intros h prev ms Hd.
    destruct (deref_inv h prev ms Hd) as (items & Hprev & Hms).
    destruct (appendTurnRef_run (mkChatMessage assistant "" None) h prev items ms
                Hprev Hms) as (Hp & Hl & Hr).
    eexists (S (length h)), _, items, (length h).
    split; [|split; [done|]; split; [exact Hp|]; split; [lia|]; split; [lia|];
             split; [exact Hl | exact Hr]].
    unfold Refs.appendAssistantRef, mbind, Refs.M_bind, Refs.readArray, Refs.alloc.
    rewrite Hprev, length_app. simpl.
    by rewrite <- app_assoc, Nat.add_1_r.
  - intros h prev. exists (length h), (h ++ [Refs.Array []]).
    split; [done|]. split; [apply preserves_app|]. split; [done|].
    by apply deref_fresh.
Qed.

Lemma transcript_updates_copy_on_write_witness :
  ∃ (cloned : Refs.loc) (h' : Refs.heap) (items items' : list Refs.loc),
    Refs.appendTokenRef (Some " there") (Some "answering") 2
      [Refs.Turn (mkChatMessage user "q" None);
       Refs.Turn (mkChatMessage assistant "Hi" None); Refs.Array [0; 1]]
    = Some (cloned, h')
    ∧ [Refs.Turn (mkChatMessage user "q" None);
       Refs.Turn (mkChatMessage assistant "Hi" None); Refs.Array [0; 1]] !! 2
      = Some (Refs.Array items)
    ∧ preserves [Refs.Turn (mkChatMessage user "q" None);
                 Refs.Turn (mkChatMessage assistant "Hi" None);
                 Refs.Array [0; 1]] h'
    ∧ (3 ≤ cloned)%nat
    ∧ h' !! cloned = Some (Refs.Array items')
    ∧ length items' = length items
    ∧ (∀ i, i ≠ length items - 1 → items' !! i = items !! i)
    ∧ (∀ lastRef l, last items = Some lastRef →
         Refs.turnAt [Refs.Turn (mkChatMessage user "q" None);
                      Refs.Turn (mkChatMessage assistant "Hi" None);
                      Refs.Array [0; 1]] lastRef = Some l →
         ∃ u, last items' = Some u ∧ (3 ≤ u)%nat
              ∧ Refs.turnAt h' u
                = Some (updatedTurn (Some " there") (Some "answering") l))
    ∧ Refs.deref h' cloned
      = Some (appendToken (Some " there") (Some "answering")
                [mkChatMessage user "q" None; mkChatMessage assistant "Hi" None]).
Proof.
  exact (proj1 transcript_updates_copy_on_write
           (Some " there") (Some "answering")
           [Refs.Turn (mkChatMessage user "q" None);
            Refs.Turn (mkChatMessage assistant "Hi" None); Refs.Array [0; 1]]
           2 [mkChatMessage user "q" None; mkChatMessage assistant "Hi" None]
           eq_refl).
Defined.

(** * Further properties of the component *)

(** ** The transcript under any action *)

(** The five things an action can do to the transcript. *)
Lemma messages_step a s :
  messages (dispatch a s) = messages s
  ∨ (∃ text, messages (dispatch a s) = messages s ++ [mkChatMessage user text None])
  ∨ messages (dispatch a s) = messages s ++ [mkChatMessage assistant "" None]
  ∨ (∃ output state, messages (dispatch a s) = appendToken output state (messages s))
  ∨ messages (dispatch a s) = [].
Proof.
  rewrite messages_dispatch.
  destruct a as [e|key shiftKey|v| |i| |]; simpl.
  - rewrite messages_onMessageReceived. destruct (switch _); eauto 10.
  - unfold onKeyDown. destruct (_ && _); simpl; eauto.
  - eauto.
  - unfold onSendClick, onInterrupt. destruct (isRunning s).
    + left. apply messages_postMessage.
    + case_bool_decide; simpl; eauto.
  - unfold onExampleClick. destruct (examplesShown s); [|eauto].
    destruct (EXAMPLES !! i); simpl; eauto.
  - unfold onResetClick. destruct (resetShown s); [|eauto].
    destruct (worker s); simpl; eauto 10.
  - unfold onLoadClick. case_bool_decide; [eauto|].
    destruct (worker s); simpl; [|eauto]. left. apply messages_postMessage.
Qed.

Lemma boundaryInContent_updatedTurn output state t :
  boundaryInContent t → boundaryInContent (updatedTurn output state t).
Proof.
  unfold boundaryInContent. intros Ht a.
  rewrite answerIndex_updatedTurn, content_updatedTurn, string_length_app.
  destruct (answerIndex t) as [b|].
  - intros [= <-]. specialize (Ht b eq_refl). lia.
  - case_decide; [|done]. intros [= <-]. lia.
Qed.

Lemma Forall_appendToken (P : ChatMessage → Prop) output state ms :
  (∀ t, P t → P (updatedTurn output state t)) →
  Forall P ms → Forall P (appendToken output state ms).
Proof.
  intros HP Hms. destruct ms as [|t ms _] using rev_ind; [done|].
  rewrite appendToken_snoc. apply Forall_app in Hms as [Hms Ht].
  apply Forall_app. split; [done|].
  rewrite Forall_singleton in Ht |- *. by apply HP.
Qed.

(** Every boundary lies within the content of its turn, after any run of
    user actions and worker events. *)
Theorem boundary_stays_in_content :
  ∀ (acts : list Action) (s : State),
    Forall boundaryInContent (messages s) →
    Forall boundaryInContent (messages (run acts s)).
Proof.
  induction acts as [|a acts IH]; intros s Hs; [done|].
  apply IH.
  destruct (messages_step a s) as [H|[[text H]|[H|[(o & st & H)|H]]]]; rewrite H.
  - done.
  - apply Forall_app. split; [done|]. apply Forall_singleton. by intros a' [=].
  - apply Forall_app. split; [done|]. apply Forall_singleton. by intros a' [=].
  - apply Forall_appendToken; [|done]. apply boundaryInContent_updatedTurn.
  - constructor.
Qed.

Lemma boundary_stays_in_content_witness :
  Forall boundaryInContent
    (messages (run [message evReady; inputText "hi"; keyDown "Enter" false;
                    message evStart; message (evUpdate "Hm" "thinking");
                    message (evUpdate "Hello" "answering")] mounted)).
Proof.
  apply (boundary_stays_in_content
           [message evReady; inputText "hi"; keyDown "Enter" false;
            message evStart; message (evUpdate "Hm" "thinking");
            message (evUpdate "Hello" "answering")] mounted).
  constructor.
Defined.

(** ** Turns under worker events *)

Lemma turn_grows_step e s j t :
  messages s !! j = Some t →
  ∃ t' extra, messages (dispatch (message e) s) !! j = Some t'
              ∧ role t' = role t
              ∧ content t' = content t +:+ extra
              ∧ (S j < length (messages s) → t' = t).
Proof.
  intros Hj. rewrite messages_receive_one.
  assert (∃ t' extra, messages s !! j = Some t' ∧ role t' = role t
                      ∧ content t' = content t +:+ extra
                      ∧ (S j < length (messages s) → t' = t)) as Hsame.
  { exists t, "". by rewrite string_app_nil_r. }
  destruct (switch (Message.status e)); try done.
  - exists t, "". unfold appendAssistant.
    rewrite lookup_app_l by by eapply lookup_lt_Some.
    by rewrite string_app_nil_r.
  - clear Hsame. destruct (messages s) as [|x l _] using rev_ind; [done|].
    rewrite appendToken_snoc.
    destruct (decide (j < length l)) as [Hlt|Hge].
    + exists t, "". rewrite lookup_app_l in Hj |- * by done.
      by rewrite string_app_nil_r.
    + assert (j = length l) as ->.
      { apply lookup_lt_Some in Hj. rewrite length_app in Hj. simpl in Hj. lia. }
      rewrite list_lookup_middle in Hj |- * by done. injection Hj as ->.
      exists (updatedTurn (Message.output e) (Message.state e) t),
        (default "" (Message.output e)).
      rewrite role_updatedTurn, content_updatedTurn.
      repeat split; try done. rewrite length_app. simpl. lia.
Qed.

Lemma length_messages_step e s :
  (length (messages s) ≤ length (messages (dispatch (message e) s)))%nat.
Proof.
  rewrite messages_receive_one. destruct (switch _); try done.
  - unfold appendAssistant. rewrite length_app. lia.
  - unfold appendToken. destruct (last _); [by rewrite length_insert | done].
Qed.

(** Worker events never remove a turn or change its role, and only ever
    append to its content; a turn that is no longer the last one is
    never changed again. *)
Theorem turns_only_grow_and_freeze :
  ∀ (evs : list MessageData) (s : State) (j : nat) (t : ChatMessage),
    messages s !! j = Some t →
    ∃ t' extra, messages (receive evs s) !! j = Some t'
                ∧ role t' = role t
                ∧ content t' = content t +:+ extra
                ∧ (S j < length (messages s) → t' = t).
Proof.
  induction evs as [|e evs IH]; intros s j t Hj.
  - exists t, "". by rewrite string_app_nil_r.
  - destruct (turn_grows_step e s j t Hj) as (t1 & x1 & Hj1 & Hr1 & Hc1 & Hf1).
    destruct (IH _ j t1 Hj1) as (t' & x' & Hj' & Hr' & Hc' & Hf').
    exists t', (x1 +:+ x'). rewrite receive_cons.
    split; [done|]. split; [congruence|]. split.
    + by rewrite Hc', Hc1, string_app_assoc.
    + intros Hlt. rewrite Hf'; [by apply Hf1|].
      pose proof (length_messages_step e s). lia.
Qed.

Lemma turns_only_grow_and_freeze_witness :
  ∃ t' extra,
    messages (receive [evUpdate "!" "answering"; evStart; evUpdate "x" "thinking"]
                (receive [evStart; evUpdate "Hi" "thinking"] mounted)) !! 0
    = Some t'
    ∧ role t' = role (mkChatMessage assistant "Hi" None)
    ∧ content t' = content (mkChatMessage assistant "Hi" None) +:+ extra
    ∧ (S 0 < length (messages (receive [evStart; evUpdate "Hi" "thinking"] mounted))
       → t' = mkChatMessage assistant "Hi" None).
Proof.
  exact (turns_only_grow_and_freeze
           [evUpdate "!" "answering"; evStart; evUpdate "x" "thinking"]
           (receive [evStart; evUpdate "Hi" "thinking"] mounted)
           0 (mkChatMessage assistant "Hi" None) eq_refl).
Defined.

(** ** What is posted to the worker *)

Lemma worker_postMessage_None c s : worker s = None → postMessage c s = s.
Proof. unfold postMessage. by intros ->. Qed.

(** When the handler posts nothing, the effect decides. *)
Lemma posts_by_effect a s sent :
  worker (handle a s) = Some sent →
  ∃ cs, worker (dispatch a s) = Some (sent ++ cs)
        ∧ Forall (allowedPost a s) cs ∧ (length cs ≤ 1)%nat.
Proof.
  intros Hw.
  destruct (decide (depsChanged s (handle a s) = true
                    ∧ lastRole (messages (handle a s)) = Some user)) as [[Hd Hl]|Hn].
  - exists [generate (messages (handle a s))].
    assert (dispatch a s = generateEffect (handle a s)) as Hdisp
      by (unfold dispatch; by rewrite Hd).
    split; [|split; [|done]].
    + rewrite Hdisp, generateEffect_fire by done.
      unfold postMessage. simpl. by rewrite Hw.
    + apply Forall_singleton. simpl. by rewrite messages_dispatch.
  - exists []. rewrite app_nil_r. split; [|split; [constructor | simpl; lia]].
    unfold dispatch. destruct (depsChanged s (handle a s)); [|done].
    rewrite generateEffect_quiet; [done|]. intros Hl. by apply Hn.
Qed.

(** When the handler posts a command, the effect adds nothing. *)
Lemma posts_by_handler a s sent c :
  worker (handle a s) = Some (sent ++ [c]) →
  dispatch a s = handle a s →
  allowedPost a s c →
  ∃ cs, worker (dispatch a s) = Some (sent ++ cs)
        ∧ Forall (allowedPost a s) cs ∧ (length cs ≤ 1)%nat.
Proof.
  intros Hw Hd Hc. exists [c]. rewrite Hd.
  split; [done|]. split; [by apply Forall_singleton | done].
Qed.

Lemma posts_step (a : Action) (s : State) (sent : list Command) :
  worker s = Some sent →
  ∃ cs, worker (dispatch a s) = Some (sent ++ cs)
        ∧ Forall (allowedPost a s) cs ∧ (length cs ≤ 1)%nat.
Proof.
  intros Hw.
  destruct a as [e|key shiftKey|v| |i| |].
  - apply posts_by_effect. simpl. by rewrite worker_onMessageReceived.
  - apply posts_by_effect. simpl. unfold onKeyDown. by destruct (_ && _).
  - by apply posts_by_effect.
  - destruct (isRunning s) eqn:Hr.
    + apply (posts_by_handler _ _ _ interrupt).
      * simpl. unfold onSendClick, onInterrupt, postMessage. by rewrite Hr, Hw.
      * apply dispatch_no_deps; simpl; unfold onSendClick, onInterrupt, postMessage;
          by rewrite Hr, Hw.
      * done.
    + apply posts_by_effect. simpl. unfold onSendClick. rewrite Hr.
      by case_bool_decide.
  - apply posts_by_effect. simpl. unfold onExampleClick.
    destruct (examplesShown s); [|done]. by destruct (EXAMPLES !! i).
  - destruct (resetShown s) eqn:Hshown.
    + apply (posts_by_handler _ _ _ reset).
      * simpl. unfold onResetClick, postMessage. by rewrite Hshown, Hw.
      * apply dispatch_quiet. simpl. unfold onResetClick. by rewrite Hshown, Hw.
      * done.
    + apply posts_by_effect. simpl. unfold onResetClick. by rewrite Hshown.
  - destruct (decide (status s ≠ None ∨ error s ≠ None)) as [Hdis|Hen].
    + apply posts_by_effect. simpl. unfold onLoadClick.
      by rewrite bool_decide_eq_true_2.
    + apply (posts_by_handler _ _ _ load).
      * simpl. unfold onLoadClick, postMessage.
        by rewrite bool_decide_eq_false_2, Hw.
      * apply dispatch_no_deps; simpl; unfold onLoadClick, postMessage;
          by rewrite bool_decide_eq_false_2, Hw.
      * simpl. split; [done|].
        destruct (status s), (error s); try done; exfalso; apply Hen; eauto.
Qed.

(** One action posts at most one command, after those already posted,
    and only a command that [allowedPost] admits for it. *)
Theorem action_posts_at_most_one_allowed_command :
  ∀ (a : Action) (s : State) (sent : list Command),
    worker s = Some sent →
    ∃ cs, worker (dispatch a s) = Some (sent ++ cs)
          ∧ Forall (allowedPost a s) cs ∧ (length cs ≤ 1)%nat.
Proof. exact posts_step. Qed.

Lemma action_posts_at_most_one_allowed_command_witness :
  ∃ cs, worker (dispatch clickLoad mounted) = Some ([check] ++ cs)
        ∧ Forall (allowedPost clickLoad mounted) cs ∧ (length cs ≤ 1)%nat.
Proof.
  exact (action_posts_at_most_one_allowed_command clickLoad mounted [check] eq_refl).
Defined.

Lemma loads_app cs1 cs2 : loads (cs1 ++ cs2) = loads cs1 + loads cs2.
Proof. unfold loads. by rewrite filter_app, length_app. Qed.

Lemma loads_allowed a s cs :
  Forall (allowedPost a s) cs → (length cs ≤ 1)%nat →
  loads cs = 0 ∨ (cs = [load] ∧ a = clickLoad ∧ status s = None ∧ error s = None).
Proof.
  intros Hall Hlen. destruct cs as [|c [|c' cs]]; [by left | | simpl in Hlen; lia].
  rewrite Forall_singleton in Hall.
  destruct c; simpl in Hall; try (by left). by right.
Qed.

Lemma status_after_load s sent :
  worker s = Some sent → status s = None → error s = None →
  status (dispatch clickLoad s) = Some "loading".
Proof.
  intros Hw Hs He. rewrite status_dispatch. simpl. unfold onLoadClick.
  rewrite bool_decide_eq_false_2 by (rewrite Hs, He; intros [?|?]; done).
  by rewrite Hw.
Qed.

Lemma run_posts acts : ∀ (s : State) (sent : list Command),
  worker s = Some sent →
  ∃ cs, worker (run acts s) = Some (sent ++ cs)
        ∧ (check ∉ cs)
        ∧ (∀ d, generate d ∈ cs → lastRole d = Some user)
        ∧ (loads cs ≤ 1)%nat
        ∧ (status s ≠ None → loads cs = 0).
Proof.
  induction acts as [|a acts IH]; intros s sent Hw.
  - exists []. rewrite app_nil_r. split; [done|]. split; [|split; [|split]].
    + by intros H%elem_of_nil.
    + by intros d H%elem_of_nil.
    + compute. lia.
    + done.
  - destruct (posts_step a s sent Hw) as (cs1 & Hw1 & Hall & Hlen).
    destruct (IH _ _ Hw1) as (cs2 & Hw2 & Hchk & Hgen & Hl2 & Hl0).
    exists (cs1 ++ cs2).
    change (run (a :: acts) s) with (run acts (dispatch a s)).
    rewrite Hw2, <- app_assoc. split; [done|]. split; [|split].
    + intros [H|H]%elem_of_app; [|done].
      rewrite Forall_forall in Hall. by apply Hall in H.
    + intros d [H|H]%elem_of_app; [|by apply Hgen].
      rewrite Forall_forall in Hall. apply Hall in H. simpl in H. by destruct H as [-> ?].
    + rewrite loads_app.
      destruct (loads_allowed a s cs1 Hall Hlen) as [H0|(-> & -> & Hs & He)].
      * rewrite H0. split; [lia|]. intros Hs. rewrite Hl0; [lia|].
        by apply status_step_set.
      * rewrite Hl0 by (by rewrite (status_after_load s sent Hw Hs He)).
        split; [done|]. by rewrite Hs.
Qed.

(** Over any run the list of posted commands only grows at its end; the
    feature check is never posted again, and every "generate" carries a
    transcript that ends with a turn of the user. *)
Theorem posted_commands_over_a_run :
  ∀ (acts : list Action) (s : State) (sent : list Command),
    worker s = Some sent →
    ∃ cs, worker (run acts s) = Some (sent ++ cs)
          ∧ (check ∉ cs)
          ∧ (∀ d, generate d ∈ cs → lastRole d = Some user).
Proof.
  intros acts s sent Hw.
  destruct (run_posts acts s sent Hw) as (cs & H1 & H2 & H3 & _). eauto.
Qed.

Lemma posted_commands_over_a_run_witness :
  ∃ cs, worker (run [clickLoad; message evReady; inputText "hi"; clickSend;
                     message (evUpdate "x" "thinking"); message evComplete]
                  mounted) = Some ([check] ++ cs)
        ∧ (check ∉ cs)
        ∧ (∀ d, generate d ∈ cs → lastRole d = Some user).
Proof.
  exact (posted_commands_over_a_run
           [clickLoad; message evReady; inputText "hi"; clickSend;
            message (evUpdate "x" "thinking"); message evComplete]
           mounted [check] eq_refl).
Defined.

(** Over any run "load" is posted at most once, and not at all when the
    phase is already set at the start. *)
Theorem load_posted_at_most_once :
  ∀ (acts : list Action) (s : State) (sent : list Command),
    worker s = Some sent →
    ∃ cs, worker (run acts s) = Some (sent ++ cs)
          ∧ (loads cs ≤ 1)%nat
          ∧ (status s ≠ None → loads cs = 0).
Proof.
  intros acts s sent Hw.
  destruct (run_posts acts s sent Hw) as (cs & H1 & _ & _ & H4 & H5). eauto.
Qed.

Lemma load_posted_at_most_once_witness :
  ∃ cs, worker (run [clickLoad; clickLoad; message (evLoading "Loading model...");
                     clickLoad; message evReady; clickLoad] mounted)
        = Some ([check] ++ cs)
        ∧ (loads cs ≤ 1)%nat
        ∧ (status mounted ≠ None → loads cs = 0).
Proof.
  exact (load_posted_at_most_once
           [clickLoad; clickLoad; message (evLoading "Loading model...");
            clickLoad; message evReady; clickLoad] mounted [check] eq_refl).
Defined.

(** ** The error flag *)

Lemma error_postMessage c s : error (postMessage c s) = error s.
Proof. unfold postMessage. by destruct (worker s). Qed.

Lemma error_generateEffect s : error (generateEffect s) = error s.
Proof.
  unfold generateEffect. repeat case_decide; try done.
  by rewrite error_postMessage.
Qed.

Lemma error_step a s : error s ≠ None → error (dispatch a s) ≠ None.
Proof.
  intros He. unfold dispatch.
  assert (error (handle a s) ≠ None) as Hh.
  { destruct a as [e|key shiftKey|v| |i| |]; simpl.
    - unfold onMessageReceived.
      destruct (switch _); simpl; try done; by destruct (Message.data e).
    - unfold onKeyDown. by destruct (_ && _).
    - done.
    - unfold onSendClick, onInterrupt. destruct (isRunning s).
      + by rewrite error_postMessage.
      + by case_bool_decide.
    - unfold onExampleClick. destruct (examplesShown s); [|done].
      by destruct (EXAMPLES !! i).
    - unfold onResetClick. destruct (resetShown s); [|done].
      destruct (worker s); [|done]. simpl. by rewrite error_postMessage.
    - unfold onLoadClick. rewrite bool_decide_eq_true_2; [done | by right]. }
  destruct (depsChanged _ _); [by rewrite error_generateEffect | done].
Qed.

(** An error, once reported, is never cleared, and from then on a click
    on the Load button changes nothing. *)
Theorem error_is_permanent_and_blocks_load :
  ∀ (acts : list Action) (s : State),
    error s ≠ None →
    error (run acts s) ≠ None
    ∧ dispatch clickLoad (run acts s) = run acts s.
Proof.
  assert (∀ acts s, error s ≠ None → error (run acts s) ≠ None) as Hkeep.
  { induction acts as [|a acts IH]; intros s He; [done|].
    apply IH. by apply error_step. }
  intros acts s He. split; [by apply Hkeep|].
  apply dispatch_unchanged. simpl. unfold onLoadClick.
  rewrite bool_decide_eq_true_2; [done|]. right. by apply Hkeep.
Qed.

Lemma error_is_permanent_and_blocks_load_witness :
  error (run [clickLoad; message evReady; clickReset]
           (receive [Message.mk (Some "error") (Some "no WebGPU adapter") None None
                       None None None None None] mounted)) ≠ None
  ∧ dispatch clickLoad
      (run [clickLoad; message evReady; clickReset]
         (receive [Message.mk (Some "error") (Some "no WebGPU adapter") None None
                     None None None None None] mounted))
    = run [clickLoad; message evReady; clickReset]
        (receive [Message.mk (Some "error") (Some "no WebGPU adapter") None None
                    None None None None None] mounted).
Proof.
  apply (error_is_permanent_and_blocks_load
           [clickLoad; message evReady; clickReset]
           (receive [Message.mk (Some "error") (Some "no WebGPU adapter") None None
                       None None None None None] mounted)).
  vm_compute. discriminate.
Defined.

(** ** The running flag *)

Lemma isRunning_postMessage c s : isRunning (postMessage c s) = isRunning s.
Proof. unfold postMessage. by destruct (worker s). Qed.

Lemma isRunning_dispatch a s : isRunning (dispatch a s) = isRunning (handle a s).
Proof.
  unfold dispatch. destruct (depsChanged _ _); [apply isRunning_generateEffect | done].
Qed.

(** The running flag is set by a submission and cleared by a "complete"
    event, and by nothing else: a flag that changed from unset was
    changed by a submission, one that changed from set by "complete".
    A click on the stop icon posts "interrupt" and leaves the flag set. *)
Theorem running_flag_set_by_submit_cleared_by_complete :
  (∀ (a : Action) (s : State) (text : string),
      submits a s = Some text → isRunning (dispatch a s) = true)
  ∧ (∀ (e : MessageData) (s : State),
      isCase CaseComplete e = true → isRunning (dispatch (message e) s) = false)
  ∧ (∀ (a : Action) (s : State),
      isRunning (dispatch a s) ≠ isRunning s →
      (isRunning s = false ∧ is_Some (submits a s))
      ∨ (isRunning s = true ∧ ∃ e, a = message e ∧ isCase CaseComplete e = true)).
Proof.
  split; [|split].
  - intros a s text Hsub. rewrite isRunning_dispatch.
    destruct a as [e|key shiftKey|v| |i| |]; simpl in *; try done.
    + unfold onKeyDown. by destruct (_ && _).
    + unfold onSendClick. destruct (isRunning s); [done|]. by case_bool_decide.
    + unfold onExampleClick. destruct (examplesShown s); [|done].
      by rewrite Hsub.
  - intros e s He. rewrite isRunning_dispatch. simpl.
    unfold isCase in He. apply bool_decide_eq_true in He.
    unfold onMessageReceived. by rewrite He.
  - intros a s. rewrite isRunning_dispatch.
    destruct a as [e|key shiftKey|v| |i| |]; simpl.
    + unfold onMessageReceived, isCase.
      destruct (switch (Message.status e)) eqn:Hc; simpl;
        try done; try (by destruct (Message.data e)).
      intros Hne. right. destruct (isRunning s); [|done].
      split; [done|]. exists e. split; [done|]. by apply bool_decide_eq_true_2.
    + unfold onKeyDown. destruct (_ && _) eqn:Hg; [|done]. simpl.
      intros Hne. left. destruct (isRunning s); [done|]. eauto.
    + done.
    + unfold onSendClick, onInterrupt. destruct (isRunning s) eqn:Hr.
      * by rewrite isRunning_postMessage, Hr.
      * case_bool_decide; [|by rewrite Hr]. intros _. left. eauto.
    + unfold onExampleClick. destruct (examplesShown s); [|done].
      destruct (EXAMPLES !! i); [|done]. simpl.
      intros Hne. left. destruct (isRunning s); [done|]. eauto.
    + unfold onResetClick. destruct (resetShown s); [|done].
      destruct (worker s); [|done]. simpl. by rewrite isRunning_postMessage.
    + unfold onLoadClick. case_bool_decide; [done|].
      destruct (worker s); [|done]. simpl. by rewrite isRunning_postMessage.
Qed.

Lemma running_flag_set_by_submit_cleared_by_complete_witness :
  isRunning (dispatch clickSend (setInput "hi" mounted)) = true
  ∧ isRunning (dispatch (message evComplete) (onEnter "hi" mounted)) = false.
Proof.
  split.
  - exact (proj1 running_flag_set_by_submit_cleared_by_complete
             clickSend (setInput "hi" mounted) "hi" eq_refl).
  - exact (proj1 (proj2 running_flag_set_by_submit_cleared_by_complete)
             evComplete (onEnter "hi" mounted) eq_refl).
Defined.

(** ** Downloads that run side by side *)

Local Abbreviation withEvent e :=
  (λ item : MessageData,
     if decide (Message.file item = Message.file e)
     then Message.withProgress item (Message.progress e) (Message.total e)
     else item).

Local Abbreviation otherThan e :=
  (λ item : MessageData, Message.file item ≠ Message.file e).

Lemma progress_progress_comm e1 e2 (items : list MessageData) :
  Message.file e1 ≠ Message.file e2 →
  withEvent e2 <$> (withEvent e1 <$> items) = withEvent e1 <$> (withEvent e2 <$> items).
Proof.
  intros Hne. rewrite <- !list_fmap_compose. apply list_fmap_ext.
  intros i item _. simpl. repeat (case_decide; simpl in * ); congruence.
Qed.

Lemma progress_done_comm e1 e2 (items : list MessageData) :
  filter (otherThan e2) (withEvent e1 <$> items)
  = withEvent e1 <$> filter (otherThan e2) items.
Proof.
  induction items as [|x items IH]; [done|].
  rewrite fmap_cons, !filter_cons.
  assert (Message.file (withEvent e1 x) = Message.file x) as Hf
    by (by case_decide).
  rewrite Hf. case_decide; [rewrite fmap_cons|]; by rewrite IH.
Qed.

Lemma done_done_comm e1 e2 (items : list MessageData) :
  filter (otherThan e2) (filter (otherThan e1) items)
  = filter (otherThan e1) (filter (otherThan e2) items).
Proof.
  induction items as [|x items IH]; [done|].
  rewrite !filter_cons.
  destruct (decide (Message.file x ≠ Message.file e1)),
           (decide (Message.file x ≠ Message.file e2));
    rewrite ?filter_cons, ?decide_True, ?decide_False by done; by rewrite IH.
Qed.


(** The tracker after two worker events. *)
Lemma progressItems_receive_two e1 e2 s :
  progressItems (receive [e1; e2] s)
  = progressItems (dispatch (message e2) (dispatch (message e1) s)).
Proof. done. Qed.

(** Events of two different files can be handled in either order, as long
    as not both start a download: the tracker ends up the same. *)
Theorem tracker_events_of_different_files_commute :
  ∀ (e1 e2 : MessageData) (s : State),
    isTrackerEvent e1 = true → isTrackerEvent e2 = true →
    isCase CaseInitiate e1 && isCase CaseInitiate e2 = false →
    Message.file e1 ≠ Message.file e2 →
    progressItems (receive [e1; e2] s) = progressItems (receive [e2; e1] s).
Proof.
  intros e1 e2 s H1 H2 Hii Hne.
  rewrite !progressItems_receive_two, !progressItems_receive_one.
  unfold isTrackerEvent, isCase in *.
  destruct (switch (Message.status e1)), (switch (Message.status e2));
    try done; simpl in *.
  - rewrite fmap_app. simpl. by rewrite decide_False.
  - rewrite filter_app, filter_cons, decide_True by done. done.
  - rewrite fmap_app. simpl. by rewrite decide_False by congruence.
  - by apply progress_progress_comm.
  - apply progress_done_comm.
  - rewrite filter_app, filter_cons, decide_True by congruence. done.
  - symmetry. apply progress_done_comm.
  - apply done_done_comm.
Qed.

Lemma tracker_events_of_different_files_commute_witness :
  progressItems (receive [evProgress "model.onnx" (Num 40) (Num 2048);
                          evDone "tokenizer.json"]
                   (receive [evInitiate "model.onnx"; evInitiate "tokenizer.json"]
                      mounted))
  = progressItems (receive [evDone "tokenizer.json";
                            evProgress "model.onnx" (Num 40) (Num 2048)]
                     (receive [evInitiate "model.onnx"; evInitiate "tokenizer.json"]
                        mounted)).
Proof.
  apply (tracker_events_of_different_files_commute
           (evProgress "model.onnx" (Num 40) (Num 2048)) (evDone "tokenizer.json")
           (receive [evInitiate "model.onnx"; evInitiate "tokenizer.json"] mounted));
    vm_compute; (reflexivity || discriminate).
Defined.

(** A download that starts and finishes leaves the tracker as it was,
    provided its file was not tracked before. *)
Theorem initiate_then_done_restores_tracker :
  ∀ (i d : MessageData) (s : State),
    isCase CaseInitiate i = true → isCase CaseDone d = true →
    Message.file d = Message.file i →
    Message.file i ∉ files (progressItems s) →
    progressItems (receive [i; d] s) = progressItems s.
Proof.
  intros i d s Hi Hd Hfile Hfresh.
  rewrite progressItems_receive_two, !progressItems_receive_one.
  unfold isCase in *. apply bool_decide_eq_true in Hi, Hd. rewrite Hi, Hd.
  rewrite filter_app, Hfile, done_unmatched by done.
  rewrite filter_cons, decide_False by (intros H; by apply H).
  by rewrite filter_nil, app_nil_r.
Qed.

Lemma initiate_then_done_restores_tracker_witness :
  progressItems (receive [evInitiate "model.onnx"; evDone "model.onnx"]
                   (receive [evInitiate "tokenizer.json"] mounted))
  = progressItems (receive [evInitiate "tokenizer.json"] mounted).
Proof.
  apply (initiate_then_done_restores_tracker
           (evInitiate "model.onnx") (evDone "model.onnx")
           (receive [evInitiate "tokenizer.json"] mounted));
    try reflexivity.
  vm_compute. intros H. apply list_elem_of_singleton in H. discriminate H.
Defined.



(** ** What the chat view makes of a turn *)

Lemma slice_split (n : nat) (s : string) : sliceTo n s +:+ sliceFrom n s = s.
Proof.
  revert s. induction n as [|n IH]; intros [|c s]; try done.
  simpl. by rewrite string_app_cons, IH.
Qed.

Lemma sliceTo_app (x y : string) : sliceTo (String.length x) (x +:+ y) = x.
Proof.
  induction x as [|c x IH]; [by destruct y|].
  rewrite string_app_cons. simpl. by rewrite IH.
Qed.

Lemma sliceFrom_app (x y : string) : sliceFrom (String.length x) (x +:+ y) = y.
Proof.
  induction x as [|c x IH]; [by destruct y|].
  rewrite string_app_cons. simpl. by rewrite IH.
Qed.

Lemma string_length_0 (x : string) : String.length x = 0 → x = "".
Proof. by destruct x. Qed.

(** The view cuts the content in two and loses nothing: for every turn,
    whatever its boundary, the reasoning text followed by the answer text
    is the content. *)
Theorem thinking_and_answer_partition_content :
  ∀ m : ChatMessage, thinking m +:+ answer m = content m.
Proof.
  intros m. unfold thinking, answer.
  destruct (answerIndex m) as [[|a]|].
  - apply string_app_nil_r.
  - apply slice_split.
  - apply string_app_nil_r.
Qed.

(** Events without a "start" keep the last turn last, append what they
    emit to it and keep a boundary that is set. *)
Lemma cycle_steps post : ∀ s ms t,
  messages s = ms ++ [t] →
  forallb (λ x, negb (isCase CaseStart x)) post = true →
  ∃ t', messages (receive post s) = ms ++ [t']
        ∧ role t' = role t
        ∧ content t' = content t +:+ emitted post
        ∧ (∀ a, answerIndex t = Some a → answerIndex t' = Some a).
Proof.
  induction post as [|e post IH]; intros s ms t Hs Hpost.
  - exists t. by rewrite string_app_nil_r.
  - simpl in Hpost. apply andb_prop in Hpost as [He Hpost].
    apply negb_true_iff in He. unfold isCase in He.
    apply bool_decide_eq_false in He.
    assert (∃ t1, messages (dispatch (message e) s) = ms ++ [t1]
                  ∧ role t1 = role t
                  ∧ content t1 = content t +:+ fragment e
                  ∧ (∀ a, answerIndex t = Some a → answerIndex t1 = Some a))
      as (t1 & Hs1 & Hr1 & Hc1 & Ha1).
    { rewrite messages_receive_one, Hs. unfold fragment, isCase.
      destruct (switch (Message.status e)) eqn:Hc; try done;
        try (exists t; by rewrite string_app_nil_r).
      exists (updatedTurn (Message.output e) (Message.state e) t).
      rewrite appendToken_snoc, role_updatedTurn, content_updatedTurn.
      rewrite bool_decide_eq_true_2 by done.
      split; [done|]. split; [done|]. split; [done|].
      intros a Ha. by rewrite answerIndex_updatedTurn, Ha. }
    destruct (IH _ ms t1 Hs1 Hpost) as (t' & Hs' & Hr' & Hc' & Ha').
    exists t'. rewrite receive_cons. split; [done|]. split; [congruence|]. split.
    + change (emitted (e :: post)) with (fragment e +:+ emitted post).
      by rewrite Hc', Hc1, string_app_assoc.
    + intros a Ha. by apply Ha', Ha1.
Qed.

(** One generation cycle as the view shows it.  After "start", events
    that come before the first answering update [e], then [e], then any
    events without a further "start": the new assistant turn holds all
    emitted text; if something was emitted before [e], the reasoning text
    is exactly that and the answer text is what [e] and the later events
    emitted.  If nothing was emitted before [e] the boundary is 0, which
    the view takes for unset: all text is reasoning and the answer is
    empty. *)
Theorem view_splits_turn_at_first_answering_update :
  ∀ (s : State) (pre post : list MessageData) (e : MessageData),
    forallb (λ x, negb (isCase CaseStart x) && negb (isAnswering x)) pre = true →
    isAnswering e = true →
    forallb (λ x, negb (isCase CaseStart x)) post = true →
    ∃ t', messages (receive (evStart :: pre ++ e :: post) s) = messages s ++ [t']
          ∧ role t' = assistant
          ∧ content t' = emitted pre +:+ emitted (e :: post)
          ∧ (emitted pre ≠ "" →
             thinking t' = emitted pre ∧ answer t' = emitted (e :: post))
          ∧ (emitted pre = "" →
             thinking t' = content t' ∧ answer t' = "" ∧ doneThinking t' = false).
Proof.
  intros s pre post e Hpre He Hpost.
  rewrite receive_cons, receive_app, receive_cons.
  assert (messages (dispatch (message evStart) s)
          = messages s ++ [mkChatMessage assistant "" None]) as Hs0
    by (by rewrite messages_receive_one).
  destruct (thinking_steps pre _ _ _ Hs0 eq_refl Hpre)
    as (t1 & Hs1 & Ha1 & Hr1 & Hc1).
  destruct (answering_step e _ _ t1 Hs1 Ha1 He) as (t2 & Hs2 & Ha2 & Hr2 & Hc2).
  destruct (cycle_steps post _ _ t2 Hs2 Hpost) as (t' & Hs' & Hr' & Hc' & Ha').
  specialize (Ha' _ Ha2). simpl in Hc1, Hr1.
  change ("" +:+ emitted pre) with (emitted pre) in Hc1.
  assert (content t' = emitted pre +:+ emitted (e :: post)) as Hcontent.
  { change (emitted (e :: post)) with (fragment e +:+ emitted post).
    by rewrite Hc', Hc2, Hc1, string_app_assoc. }
  exists t'. split; [done|]. split; [congruence|]. split; [done|].
  unfold doneThinking, thinking, answer. rewrite Ha', Hc1, Hcontent.
  destruct (String.length (emitted pre)) as [|a] eqn:Hlen.
  - apply string_length_0 in Hlen. split; [done|]. intros _. by repeat split.
  - split; [|intros Hempty; by rewrite Hempty in Hlen].
    intros _. rewrite <- Hlen. by rewrite sliceTo_app, sliceFrom_app.
Qed.

Lemma view_splits_turn_at_first_answering_update_witness :
  ∃ t', messages (receive (evStart :: [evUpdate "Let me think. " "thinking"]
                           ++ evUpdate "It is " "answering"
                              :: [evUpdate "42." "answering"; evComplete])
                    (onEnter "q" mounted))
        = messages (onEnter "q" mounted) ++ [t']
        ∧ role t' = assistant
        ∧ content t'
          = emitted [evUpdate "Let me think. " "thinking"]
            +:+ emitted (evUpdate "It is " "answering"
                         :: [evUpdate "42." "answering"; evComplete])
        ∧ (emitted [evUpdate "Let me think. " "thinking"] ≠ "" →
           thinking t' = emitted [evUpdate "Let me think. " "thinking"]
           ∧ answer t' = emitted (evUpdate "It is " "answering"
                                  :: [evUpdate "42." "answering"; evComplete]))
        ∧ (emitted [evUpdate "Let me think. " "thinking"] = "" →
           thinking t' = content t' ∧ answer t' = "" ∧ doneThinking t' = false).
Proof.
  exact (view_splits_turn_at_first_answering_update (onEnter "q" mounted)
           [evUpdate "Let me think. " "thinking"]
           [evUpdate "42." "answering"; evComplete]
           (evUpdate "It is " "answering") eq_refl eq_refl eq_refl).
Defined.

(** ** Events out of order, and the metrics *)

Lemma tps_generateEffect s :
  tps (generateEffect s)
  = if bool_decide (lastRole (messages s) = Some user) then None else tps s.
Proof.
  case_bool_decide as Hl.
  - rewrite generateEffect_fire by done. unfold postMessage. simpl.
    by destruct (worker s).
  - by rewrite generateEffect_quiet.
Qed.

Lemma numTokens_generateEffect s : numTokens (generateEffect s) = numTokens s.
Proof.
  unfold generateEffect, postMessage. repeat case_decide; try done.
  simpl. by destruct (worker s).
Qed.

Lemma dispatch_update e s :
  isCase CaseUpdate e = true →
  dispatch (message e) s
  = generateEffect
      (setMessages (appendToken (Message.output e) (Message.state e))
         (setNumTokens (Message.numTokens e) (setTps (Message.tps e) s))).
Proof.
  intros He. unfold isCase in He. apply bool_decide_eq_true in He.
  unfold dispatch. simpl. unfold onMessageReceived. rewrite He.
  unfold depsChanged. simpl. rewrite bool_decide_eq_false_2; [done | lia].
Qed.

(** Every "update" event stores its [numTokens], whatever its fragment
    and whatever the transcript; it stores its [tps] as well, unless the
    last turn is the user's, in which case the effect that follows
    clears [tps]. *)
Theorem update_refreshes_metrics :
  ∀ (e : MessageData) (s : State),
    isCase CaseUpdate e = true →
    numTokens (dispatch (message e) s) = Message.numTokens e
    ∧ tps (dispatch (message e) s)
      = if bool_decide (lastRole (messages s) = Some user)
        then None else Message.tps e.
Proof.
  intros e s He. rewrite (dispatch_update e s He).
  rewrite numTokens_generateEffect, tps_generateEffect. simpl.
  by rewrite lastRole_appendToken.
Qed.

Lemma update_refreshes_metrics_witness :
  numTokens (dispatch (message (evUpdateWith "" "thinking" (Num 12) (Num 34)))
               (receive [evStart] mounted))
  = Some (Num 34)
  ∧ tps (dispatch (message (evUpdateWith "" "thinking" (Num 12) (Num 34)))
           (receive [evStart] mounted))
    = if bool_decide (lastRole (messages (receive [evStart] mounted)) = Some user)
      then None else Some (Num 12).
Proof.
  exact (update_refreshes_metrics (evUpdateWith "" "thinking" (Num 12) (Num 34))
           (receive [evStart] mounted) eq_refl).
Defined.

(** While the last turn is the user's, an "update" event, or a
    "complete" event that clears a set running flag, makes the effect run
    again: "generate" is posted once more, with the transcript as it then
    is. *)
Lemma repost_before_start :
  ∀ (e : MessageData) (s : State) (sent : list Command),
    worker s = Some sent →
    lastRole (messages s) = Some user →
    (isCase CaseUpdate e || (isCase CaseComplete e && isRunning s)) = true →
    worker (dispatch (message e) s)
    = Some (sent ++ [generate (messages (dispatch (message e) s))]).
Proof.
  intros e s sent Hw Hlast Hcase.
  apply orb_prop in Hcase as [Hu|Hc].
  - rewrite messages_dispatch, (dispatch_update e s Hu).
    rewrite generateEffect_fire by (simpl; by rewrite lastRole_appendToken).
    unfold isCase in Hu. apply bool_decide_eq_true in Hu.
    simpl. unfold onMessageReceived, postMessage. rewrite Hu. simpl.
    by rewrite Hw.
  - apply andb_prop in Hc as [Hc Hr].
    unfold isCase in Hc. apply bool_decide_eq_true in Hc.
    rewrite messages_dispatch. unfold dispatch. simpl.
    unfold onMessageReceived. rewrite Hc.
    unfold depsChanged. simpl. rewrite Hr.
    rewrite bool_decide_eq_true_2, bool_decide_eq_false_2 by done. simpl.
    rewrite generateEffect_fire by done.
    unfold postMessage. simpl. by rewrite Hw.
Qed.

(** ** What the user wrote *)

Lemma user_turn_kept_step a s j t :
  inOrder a s = true → a ≠ clickReset →
  messages s !! j = Some t → role t = user →
  messages (dispatch a s) !! j = Some t.
Proof.
  intros Hord Hreset Hj Hrole. rewrite messages_dispatch.
  assert (∀ x, (messages s ++ [x]) !! j = Some t) as Happ.
  { intros x. rewrite lookup_app_l; [done | by eapply lookup_lt_Some]. }
  destruct a as [e|key shiftKey|v| |i| |]; simpl.
  - rewrite messages_onMessageReceived. simpl in Hord.
    destruct (switch (Message.status e)) eqn:Hc; try done; [apply Happ|].
    destruct (messages s) as [|x l _] using rev_ind; [done|].
    rewrite lastRole_snoc in Hord. rewrite appendToken_snoc.
    destruct (decide (j < length l)) as [Hlt|Hge].
    + rewrite lookup_app_l in Hj |- * by done. done.
    + assert (j = length l) as ->.
      { apply lookup_lt_Some in Hj. rewrite length_app in Hj. simpl in Hj. lia. }
      rewrite list_lookup_middle in Hj by done. injection Hj as ->.
      rewrite Hrole, bool_decide_eq_true_2 in Hord by done.
      unfold isCase in Hord. by rewrite Hc, bool_decide_eq_true_2 in Hord.
  - unfold onKeyDown. destruct (_ && _); [apply Happ | done].
  - done.
  - unfold onSendClick, onInterrupt. destruct (isRunning s).
    + by rewrite messages_postMessage.
    + case_bool_decide; [apply Happ | done].
  - unfold onExampleClick. destruct (examplesShown s); [|done].
    destruct (EXAMPLES !! i); [apply Happ | done].
  - done.
  - unfold onLoadClick. case_bool_decide; [done|].
    destruct (worker s); [|done]. simpl. by rewrite messages_postMessage.
Qed.

(** In a run without Reset in which the worker keeps its order, a turn
    of the user stays exactly as it was submitted. *)
Theorem user_turns_are_never_altered :
  ∀ (acts : list Action) (s : State) (j : nat) (t : ChatMessage),
    allInOrder acts s = true →
    forallb (λ a, negb (bool_decide (a = clickReset))) acts = true →
    messages s !! j = Some t → role t = user →
    messages (run acts s) !! j = Some t.
Proof.
  induction acts as [|a acts IH]; intros s j t Hord Hnr Hj Hrole; [done|].
  simpl in Hord, Hnr.
  apply andb_prop in Hord as [Ha Hord]. apply andb_prop in Hnr as [Hr Hnr].
  apply negb_true_iff, bool_decide_eq_false in Hr.
  change (run (a :: acts) s) with (run acts (dispatch a s)).
  apply IH; try done. by apply user_turn_kept_step.
Qed.

Lemma user_turns_are_never_altered_witness :
  messages (run [message evStart; message (evUpdate "Hello" "answering");
                 message evComplete; inputText "more"; clickSend]
              (dispatch clickSend (setInput "hi" mounted))) !! 0
  = Some (mkChatMessage user "hi" None).
Proof.
  apply (user_turns_are_never_altered
           [message evStart; message (evUpdate "Hello" "answering");
            message evComplete; inputText "more"; clickSend]
           (dispatch clickSend (setInput "hi" mounted)) 0
           (mkChatMessage user "hi" None)); reflexivity.
Defined.

(** ** The text handed to the Markdown parser *)






(** ** Submitting a turn *)

Lemma EXAMPLES_not_empty : Forall (λ msg, msg ≠ "") EXAMPLES.
Proof. repeat constructor; discriminate. Qed.

(** [submits] names the calls of [onEnter] that the handlers make. *)
Lemma submits_handle a s text :
  submits a s = Some text → handle a s = onEnter text s.
Proof.
  destruct a as [e|key shiftKey|v| |i| |]; simpl; try done.
  - unfold onKeyDown. destruct (_ && _); [|done]. by intros [= <-].
  - unfold onSendClick. destruct (isRunning s); [done|].
    case_bool_decide; [|done]. by intros [= <-].
  - unfold onExampleClick. destruct (examplesShown s); [|done]. by intros ->.
Qed.

Lemma submits_not_empty a s text : submits a s = Some text → text ≠ "".
Proof.
  assert (∀ x : string, 0 < String.length x → x ≠ "") as Hpos.
  { intros x Hx ->. simpl in Hx. lia. }
  destruct a as [e|key shiftKey|v| |i| |]; simpl; try done.
  - destruct (bool_decide (0 < String.length (input s))) eqn:Hin; [|done].
    apply bool_decide_eq_true in Hin. destruct (_ && _); [|done].
    intros [= <-]. by apply Hpos.
  - destruct (isRunning s); [done|]. case_bool_decide; [|done].
    intros [= <-]. by apply Hpos.
  - destruct (examplesShown s); [|done]. intros Hi.
    pose proof EXAMPLES_not_empty as Hall. rewrite Forall_lookup in Hall.
    by apply (Hall i).
Qed.

Lemma submits_inOrder a s text : submits a s = Some text → inOrder a s = true.
Proof. by destruct a. Qed.

Lemma dispatch_onEnter a s text :
  handle a s = onEnter text s → dispatch a s = generateEffect (onEnter text s).
Proof.
  intros Ha. unfold dispatch. rewrite Ha.
  unfold depsChanged. simpl. rewrite bool_decide_eq_false_2; [done | lia].
Qed.

(** A user action that does not submit leaves the transcript, or empties
    it. *)
Lemma no_submit_no_turn a s :
  (∀ e, a ≠ message e) → submits a s = None →
  messages (dispatch a s) = messages s ∨ messages (dispatch a s) = [].
Proof.
  intros Ha. rewrite messages_dispatch.
  destruct a as [e|key shiftKey|v| |i| |]; simpl.
  - by destruct (Ha e).
  - unfold onKeyDown. destruct (_ && _); [done | by left].
  - by left.
  - unfold onSendClick, onInterrupt. destruct (isRunning s).
    + left. apply messages_postMessage.
    + case_bool_decide; [done | by left].
  - unfold onExampleClick. destruct (examplesShown s); [|by left].
    destruct (EXAMPLES !! i); [done | by left].
  - unfold onResetClick. destruct (resetShown s); [|by left].
    destruct (worker s); [by right | by left].
  - unfold onLoadClick. case_bool_decide; [by left|].
    destruct (worker s); [|by left]. left. simpl. apply messages_postMessage.
Qed.

(** C9: [onEnter] appends a user turn with the given text, clears [tps],
    sets the running flag and empties the input box; every action that
    calls it, the Enter key, the send arrow or an example, does so with a
    text that is not empty, and the whole step then appends that turn,
    leaves [tps] cleared and the flag set.  A user action either appends
    such a turn or appends none: with an empty input box the Enter key
    changes nothing and a click on the send arrow leaves the transcript
    alone, and no example is empty.  So no empty user turn is ever
    appended. *)
Theorem onEnter_appends_callers_reject_empty :
  (∀ (text : string) (s : State),
      messages (onEnter text s) = messages s ++ [mkChatMessage user text None]
      ∧ tps (onEnter text s) = None
      ∧ isRunning (onEnter text s) = true
      ∧ input (onEnter text s) = "")
  ∧ (∀ (a : Action) (s : State) (text : string),
      submits a s = Some text →
      handle a s = onEnter text s
      ∧ text ≠ ""
      ∧ messages (dispatch a s) = messages s ++ [mkChatMessage user text None]
      ∧ tps (dispatch a s) = None
      ∧ isRunning (dispatch a s) = true)
  ∧ (∀ (a : Action) (s : State),
      (∀ e, a ≠ message e) →
      messages (dispatch a s) = messages s
      ∨ messages (dispatch a s) = []
      ∨ ∃ text, text ≠ ""
                ∧ messages (dispatch a s)
                  = messages s ++ [mkChatMessage user text None])
  ∧ (∀ (key : string) (shiftKey : bool) (s : State),
      input s = "" → dispatch (keyDown key shiftKey) s = s)
  ∧ (∀ s : State,
      input s = "" → messages (dispatch clickSend s) = messages s)
  ∧ Forall (λ msg, msg ≠ "") EXAMPLES.
Proof.
  assert (Hsub : ∀ a s text, submits a s = Some text →
            handle a s = onEnter text s
            ∧ text ≠ ""
            ∧ messages (dispatch a s) = messages s ++ [mkChatMessage user text None]
            ∧ tps (dispatch a s) = None
            ∧ isRunning (dispatch a s) = true).
  { intros a s text Hs. pose proof (submits_handle a s text Hs) as Ha.
    split; [done|]. split; [by eapply submits_not_empty|].
    rewrite messages_dispatch, isRunning_dispatch, (dispatch_onEnter a s text Ha).
    rewrite Ha, tps_generateEffect. split; [done|]. split; [|done].
    by case_bool_decide. }
  split; [done|]. split; [exact Hsub|]. split; [|split; [|split]].
  - intros a s Ha. destruct (submits a s) as [text|] eqn:Hs.
    + destruct (Hsub a s text Hs) as (_ & Hne & Hm & _). right. right. eauto.
    + destruct (no_submit_no_turn a s Ha Hs) as [H|H]; eauto.
  - intros key shiftKey s Hin. apply dispatch_unchanged. simpl.
    unfold onKeyDown. rewrite Hin. done.
  - intros s Hin. rewrite messages_dispatch. simpl.
    unfold onSendClick, onInterrupt. rewrite Hin.
    destruct (isRunning s); [apply messages_postMessage | done].
  - exact EXAMPLES_not_empty.
Qed.

Lemma onEnter_appends_callers_reject_empty_witness :
  (handle clickSend (setInput "hi" (receive [evReady] mounted))
   = onEnter "hi" (setInput "hi" (receive [evReady] mounted))
   ∧ "hi" ≠ ""
   ∧ messages (dispatch clickSend (setInput "hi" (receive [evReady] mounted)))
     = messages (setInput "hi" (receive [evReady] mounted))
       ++ [mkChatMessage user "hi" None]
   ∧ tps (dispatch clickSend (setInput "hi" (receive [evReady] mounted))) = None
   ∧ isRunning (dispatch clickSend (setInput "hi" (receive [evReady] mounted)))
     = true)
  ∧ dispatch (keyDown "Enter" false) (receive [evReady] mounted)
    = receive [evReady] mounted
  ∧ messages (dispatch clickSend (receive [evReady] mounted))
    = messages (receive [evReady] mounted).
Proof.
  split; [|split].
  - exact (proj1 (proj2 onEnter_appends_callers_reject_empty)
             clickSend (setInput "hi" (receive [evReady] mounted)) "hi" eq_refl).
  - exact (proj1 (proj2 (proj2 (proj2 onEnter_appends_callers_reject_empty)))
             "Enter" false (receive [evReady] mounted) eq_refl).
  - exact (proj1 (proj2 (proj2 (proj2 (proj2 onEnter_appends_callers_reject_empty))))
             (receive [evReady] mounted) eq_refl).
Defined.

(** ** The generate trigger, settled *)

Lemma length_appendToken output state ms :
  length (appendToken output state ms) = length ms.
Proof.
  unfold appendToken. destruct (last ms); [by rewrite length_insert | done].
Qed.

(** While a generation is running the transcript is not empty: no step
    breaks this. *)
Lemma running_has_turns_step a s :
  (isRunning s = true → messages s ≠ []) →
  isRunning (dispatch a s) = true → messages (dispatch a s) ≠ [].
Proof.
  intros Hinv. rewrite isRunning_dispatch, messages_dispatch.
  assert (∀ (ms : list ChatMessage) t, ms ++ [t] ≠ []) as Hsnoc
    by (intros [|??] ?; done).
  destruct a as [e|key shiftKey|v| |i| |]; simpl.
  - unfold onMessageReceived.
    destruct (switch (Message.status e)); simpl; try done;
      try (by destruct (Message.data e)).
    + intros _. apply Hsnoc.
    + intros Hr Hnil. apply Hinv; [done|].
      apply (f_equal length) in Hnil. rewrite length_appendToken in Hnil.
      by destruct (messages s).
  - unfold onKeyDown. destruct (_ && _); [|done]. intros _. apply Hsnoc.
  - done.
  - unfold onSendClick, onInterrupt. destruct (isRunning s) eqn:Hr.
    + rewrite isRunning_postMessage, messages_postMessage. by rewrite Hr.
    + case_bool_decide; [|by rewrite Hr]. intros _. apply Hsnoc.
  - unfold onExampleClick. destruct (examplesShown s); [|done].
    destruct (EXAMPLES !! i); [|done]. intros _. apply Hsnoc.
  - unfold onResetClick. destruct (resetShown s) eqn:Hshown; [|done].
    unfold resetShown in Hshown. apply andb_prop in Hshown as [_ Hr].
    apply negb_true_iff in Hr.
    destruct (worker s); simpl; [by rewrite isRunning_postMessage, Hr|].
    by rewrite Hr.
  - unfold onLoadClick. case_bool_decide; [done|].
    destruct (worker s); [|done]. simpl.
    by rewrite isRunning_postMessage, messages_postMessage.
Qed.

(** C5, as the component has it.  The effect posts "generate", with the
    whole transcript, exactly when the last turn is the user's.  Each
    submission appends the user's turn and posts one "generate" carrying
    the transcript that ends with it.  Over any run in which the worker
    keeps its order, that is, sends neither "update" nor "complete"
    while the last turn is the user's, the "generate" commands posted
    are those, one per submitted turn and nothing else.  While a
    generation is running neither the Enter key nor the send arrow
    submits, nor an example, the transcript being non-empty throughout.
    An "update" that does arrive while the last turn is the user's, or a
    "complete" that clears the running flag then, posts "generate" once
    more for the same turn. *)
Theorem generate_once_per_submitted_turn :
  (∀ (s : State) (sent : list Command),
      worker s = Some sent →
      worker (generateEffect s)
      = Some (if bool_decide (lastRole (messages s) = Some user)
              then sent ++ [generate (messages s)] else sent))
  ∧ (∀ (a : Action) (s : State) (sent : list Command) (text : string),
      worker s = Some sent → submits a s = Some text →
      messages (dispatch a s) = messages s ++ [mkChatMessage user text None]
      ∧ generates (dispatch a s)
        = generates s ++ [messages s ++ [mkChatMessage user text None]])
  ∧ (∀ (acts : list Action) (s : State) (sent : list Command),
      worker s = Some sent → allInOrder acts s = true →
      generates (run acts s) = generates s ++ submitted acts s)
  ∧ (∀ (s : State) (key : string) (shiftKey : bool),
      isRunning s = true →
      submits (keyDown key shiftKey) s = None ∧ submits clickSend s = None
      ∧ (messages s ≠ [] → ∀ i, submits (clickExample i) s = None))
  ∧ (∀ (acts : list Action) (s : State),
      (isRunning s = true → messages s ≠ []) →
      isRunning (run acts s) = true → messages (run acts s) ≠ [])
  ∧ (∀ (e : MessageData) (s : State) (sent : list Command),
      worker s = Some sent →
      lastRole (messages s) = Some user →
      (isCase CaseUpdate e || (isCase CaseComplete e && isRunning s)) = true →
      worker (dispatch (message e) s)
      = Some (sent ++ [generate (messages (dispatch (message e) s))])).
Proof.
  split; [|split; [|split; [|split; [|split]]]].
  - intros s sent Hw. case_bool_decide as Hlast.
    + rewrite generateEffect_fire by done.
      unfold postMessage. simpl. by rewrite Hw.
    + by rewrite generateEffect_quiet.
  - intros a s sent text Hw Hsub.
    destruct (generate_step a s sent Hw (submits_inOrder a s text Hsub))
      as (_ & Hg & Hm).
    rewrite Hsub in Hg. split; [by apply Hm | done].
  - induction acts as [|a acts IH]; intros s sent Hw Hord.
    + simpl. by rewrite app_nil_r.
    + simpl in Hord. apply andb_prop in Hord as [Ha Hacts].
      destruct (generate_step a s sent Hw Ha) as ([sent' Hw'] & Hg & _).
      change (run (a :: acts) s) with (run acts (dispatch a s)).
      rewrite (IH _ sent' Hw' Hacts), Hg. simpl.
      by rewrite <- app_assoc.
  - intros s key shiftKey Hr. simpl. rewrite Hr.
    split; [by rewrite andb_false_r|]. split; [done|].
    intros Hne i. unfold examplesShown.
    rewrite (bool_decide_eq_false_2 (length (messages s) = 0)).
    + by rewrite andb_false_r.
    + by destruct (messages s).
  - induction acts as [|a acts IH]; intros s Hinv; [done|].
    change (run (a :: acts) s) with (run acts (dispatch a s)).
    apply IH. by apply running_has_turns_step.
  - exact repost_before_start.
Qed.

Lemma generate_once_per_submitted_turn_witness :
  generates
    (run [message evReady; inputText "hi"; keyDown "Enter" false;
          keyDown "Enter" false; message evStart;
          message (evUpdate "Hello" "answering"); message evComplete;
          inputText "more"; clickSend; clickSend; message evStart]
       mounted)
  = generates mounted
    ++ submitted [message evReady; inputText "hi"; keyDown "Enter" false;
                  keyDown "Enter" false; message evStart;
                  message (evUpdate "Hello" "answering"); message evComplete;
                  inputText "more"; clickSend; clickSend; message evStart]
         mounted.
Proof.
  apply (proj1 (proj2 (proj2 generate_once_per_submitted_turn))
           [message evReady; inputText "hi"; keyDown "Enter" false;
            keyDown "Enter" false; message evStart;
            message (evUpdate "Hello" "answering"); message evComplete;
            inputText "more"; clickSend; clickSend; message evStart]
           mounted [check]).
  - reflexivity.
  - vm_compute. reflexivity.
Defined.

(** One submitted turn, two "generate" commands: the worker reports
    "complete" without a "start" before it. *)
Lemma generate_posted_twice_when_complete_precedes_start :
  let s := run [message evReady; inputText "q"; keyDown "Enter" false;
                message evComplete] mounted in
  messages s = [mkChatMessage user "q" None]
  ∧ generates s = [[mkChatMessage user "q" None]; [mkChatMessage user "q" None]].
Proof. vm_compute. split; reflexivity. Qed.

(** ** The unit index just below 1024^5 *)

(** With [Math.log] as accurate as it can be, the three sizes of the
    specification are printed as expected. *)
Lemma formatBytes_examples (Math_log : float → float) :
  Math_log 1024%float = 0x1.bb9d3beb8c86bp+2%float →
  Math_log 1536%float = 0x1.d5905fd84c1f0p+2%float →
  formatBytes Math_log 0 = Some "0B"
  ∧ formatBytes Math_log 1024 = Some "1kB"
  ∧ formatBytes Math_log 1536 = Some "1.5kB".
Proof.
  intros H1024 H1536. unfold formatBytes.
  change (1536 =? 0)%float with false. change (1024 =? 0)%float with false.
  change (0 =? 0)%float with true. cbv iota.
  rewrite H1024, H1536. by vm_compute.
Qed.

(** The size suffix of the progress label is empty exactly when the
    total is missing or NaN; otherwise it is the formatted total. *)
Lemma sizeSuffix_cases (Math_log : float → float) :
  sizeSuffix Math_log None = Some ""
  ∧ sizeSuffix Math_log (Some nan) = Some ""
  ∧ (∀ x, is_nan x = false →
       sizeSuffix Math_log (Some x)
       = String.append " of " <$> formatBytes Math_log x).
Proof.
  split; [done|]. split; [done|].
  intros x Hx. unfold sizeSuffix. simpl. by rewrite Hx.
Qed.

(** C6 at 2^50 - 1 bytes.  Let [Math.log] return, at 1024 and at
    2^50 - 1, the doubles nearest to the two logarithms.  Their quotient,
    computed in doubles, is exactly 5, so the index is 5, the unit table
    has no entry and the result is NaN.  The floor of the logarithm to
    base 1024 of 2^50 - 1 is 4, whose unit is TB. *)
Theorem formatBytes_index_overshoots_below_1024_pow_5 :
  ∀ Math_log : float → float,
    Math_log 1024%float = 0x1.bb9d3beb8c86bp+2%float →
    Math_log 1125899906842623%float = 0x1.1542457337d43p+5%float →
    Math_floor (Math_log 1125899906842623 / Math_log 1024)%float = Some 5%Z
    ∧ formatBytes Math_log 1125899906842623 = Some "NaN"
    ∧ (1024 ^ 4 ≤ 1125899906842623 < 1024 ^ 5)%N
    ∧ units !! 4 = Some "TB".
Proof.
  intros Math_log H1024 Hsize. unfold formatBytes.
  change (1125899906842623 =? 0)%float with false. cbv iota.
  rewrite H1024, Hsize. by vm_compute.
Qed.

Lemma formatBytes_index_overshoots_below_1024_pow_5_witness :
  Math_floor
    ((if (1125899906842623 =? 1024)%float
      then 0x1.bb9d3beb8c86bp+2 else 0x1.1542457337d43p+5)
     / (if (1024 =? 1024)%float
        then 0x1.bb9d3beb8c86bp+2 else 0x1.1542457337d43p+5))%float
  = Some 5%Z
  ∧ formatBytes
      (λ x, if (x =? 1024)%float
            then 0x1.bb9d3beb8c86bp+2%float else 0x1.1542457337d43p+5%float)
      1125899906842623 = Some "NaN"
  ∧ (1024 ^ 4 ≤ 1125899906842623 < 1024 ^ 5)%N
  ∧ units !! 4 = Some "TB".
Proof.
  exact (formatBytes_index_overshoots_below_1024_pow_5
           (λ x, if (x =? 1024)%float
                 then 0x1.bb9d3beb8c86bp+2%float
                 else 0x1.1542457337d43p+5%float)
           eq_refl eq_refl).
Defined.
